(** * A drag-and-drop project board: validator, observable store, form flow

    Shallow embedding of [src/app.ts].  The development follows the file
    top-down:

    - [JS]        the few ECMAScript value operations the program relies on
                  (strings as sequences of UTF-16 code units, [trim],
                  truthiness, IEEE doubles);
    - [Validator] the pure function [validatedInput] (app.ts 101-151);
    - [Store]     the classes [State] / [ProjectState] (app.ts 31-81) over an
                  explicit heap of [Project] objects and [Project[]] arrays;
    - [Form]      [ProjectForm.validateInputs], [getInputValues],
                  [clearInput] and [handleSubmit] (app.ts 326-384).

    Two conversions of the ECMAScript runtime are not program text and are
    taken as parameters wherever they are used: [Number::toString]
    (template literals interpolating a number) and [StringToNumber] (the
    unary [+] applied to the people field). *)

From Stdlib Require Import PrimFloat Uint63 ZArith NArith.
From Stdlib Require Import SpecFloat FloatOps FloatAxioms DecimalString.
From stdpp Require Import gmap list strings.

(** ** ECMAScript values *)

Module JS.

(** A string is a finite sequence of UTF-16 code units; [.length] counts
    code units and [===] compares the sequences. *)
Definition code_unit := N.
Definition jsstring := list code_unit.

(** A string literal of the source (all of them are ASCII). *)
Definition lit (s : string) : jsstring :=
  Ascii.N_of_ascii <$> String.list_ascii_of_string s.

(** [WhiteSpace] and [LineTerminator] code points, the characters removed
    by [String.prototype.trim]. *)
Definition is_white_space (c : code_unit) : bool :=
  ((c =? 0x0009) || (c =? 0x000A) || (c =? 0x000B) || (c =? 0x000C) ||
   (c =? 0x000D) || (c =? 0x0020) || (c =? 0x00A0) || (c =? 0x1680) ||
   ((0x2000 <=? c) && (c <=? 0x200A)) ||
   (c =? 0x2028) || (c =? 0x2029) || (c =? 0x202F) || (c =? 0x205F) ||
   (c =? 0x3000) || (c =? 0xFEFF))%N.

Fixpoint trimStart (s : jsstring) : jsstring :=
  match s with
  | c :: s' => if is_white_space c then trimStart s' else s
  | [] => []
  end.

Definition trimEnd (s : jsstring) : jsstring :=
  reverse (trimStart (reverse s)).

Definition trim (s : jsstring) : jsstring := trimEnd (trimStart s).

(** A number is an IEEE 754 binary64 value. *)
Definition number := float.

(** The [.length] of a string as a number (exact: a string has fewer
    than 2^53 code units). *)
Definition length_number (s : jsstring) : number :=
  PrimFloat.of_uint63 (Uint63.of_Z (Z.of_nat (length s))).

(** [a <= b] and [a >= b] on numbers; both are [false] when an operand
    is NaN. *)
Definition le (a b : number) : bool := PrimFloat.leb a b.
Definition ge (a b : number) : bool := PrimFloat.leb b a.

(** The type [string | number]; [typeof] tells the two cases apart. *)
Inductive value :=
| Str (s : jsstring)
| Num (n : number).

(** [ToBoolean]: the empty string, [+0], [-0] and NaN are falsy. *)
Definition truthy (v : value) : bool :=
  match v with
  | Str s => negb (length s =? 0)
  | Num n => negb (PrimFloat.eqb n 0%float) && PrimFloat.eqb n n
  end.

(** [s] occurs in [t] as a contiguous substring. *)
Definition mentions (s t : jsstring) : Prop :=
  ∃ pre post, t = pre ++ s ++ post.

End JS.

(** ** The validator (app.ts 101-151) *)

Module Validator.
Import JS.

(** [interface validate]: an optional property is [None] when it is
    absent ([undefined]); [x != null] is then [is_Some x]. *)
Record validate := {
  value : JS.value;
  required : option bool;
  minLength : option number;
  maxLength : option number;
  max : option number;
  min : option number;
  field : jsstring;
}.

(** The object literal [{ isValid, message }] that is returned. *)
Record result := {
  isValid : bool;
  message : jsstring;
}.

Section with_runtime.

(** [Number::toString], used by [value.toString()] and by the
    interpolation of a number into a template literal. *)
Variable Number_toString : number → jsstring.

Definition toString (v : JS.value) : jsstring :=
  match v with
  | Str s => s
  | Num n => Number_toString n
  end.

(** The five messages, one per check. *)
Definition msg_required (v : validate) : jsstring :=
  field v ++ lit " field is required".

Definition msg_maxLength (v : validate) (n : number) : jsstring :=
  field v ++ lit " field most not be more than " ++
  Number_toString n ++ lit " characters".

Definition msg_minLength (v : validate) (n : number) : jsstring :=
  field v ++ lit " field most not be less than " ++
  Number_toString n ++ lit " characters".

Definition msg_max (v : validate) (n : number) : jsstring :=
  field v ++ lit " field most not be more than " ++
  Number_toString n ++ lit " numbers".

Definition msg_min (v : validate) (n : number) : jsstring :=
  field v ++ lit " field most not be less than " ++
  Number_toString n ++ lit " numbers".

(** The body of one [if] block: [isValid] is and-ed with the block's own
    test [ok], and [message] is then assigned from the accumulated
    [isValid] (not from [ok]). *)
Definition check (ok : bool) (msg : jsstring) (r : result) : result :=
  let isValid' := isValid r && ok in
  {| isValid := isValid';
     message := if negb isValid' then msg else [] |}.

(** [if (validate.value) { ... }] (app.ts 118-121). *)
Definition check_required (v : validate) (r : result) : result :=
  if truthy (value v)
  then check (negb (length (trim (toString (value v))) =? 0))
             (msg_required v) r
  else r.

(** [if (validate.maxLength != null && typeof validate.value === 'string')]
    (app.ts 122-127). *)
Definition check_maxLength (v : validate) (r : result) : result :=
  match maxLength v, value v with
  | Some n, Str s => check (le (length_number s) n) (msg_maxLength v n) r
  | _, _ => r
  end.

(** app.ts 128-133. *)
Definition check_minLength (v : validate) (r : result) : result :=
  match minLength v, value v with
  | Some n, Str s => check (ge (length_number s) n) (msg_minLength v n) r
  | _, _ => r
  end.

(** [if (validate.max != null && typeof validate.value === 'number')]
    (app.ts 134-139). *)
Definition check_max (v : validate) (r : result) : result :=
  match max v, value v with
  | Some n, Num x => check (le x n) (msg_max v n) r
  | _, _ => r
  end.

(** app.ts 140-145. *)
Definition check_min (v : validate) (r : result) : result :=
  match min v, value v with
  | Some n, Num x => check (ge x n) (msg_min v n) r
  | _, _ => r
  end.

(** [function validatedInput(validate)]: the five blocks in program
    order, starting from [isValid = true], [message = '']. *)
Definition validatedInput (v : validate) : result :=
  let r := {| isValid := true; message := [] |} in
  let r := check_required v r in
  let r := check_maxLength v r in
  let r := check_minLength v r in
  let r := check_max v r in
  let r := check_min v r in
  r.

End with_runtime.

(** The same rule with another [required] property. *)
Definition with_required (q : option bool) (v : validate) : validate :=
  {| value := value v; required := q; minLength := minLength v;
     maxLength := maxLength v; max := max v; min := min v;
     field := field v |}.

End Validator.

(** ** The observable store (app.ts 1-81) *)

Module Store.
Import JS.

(** [enum ProjectStatus]. *)
Inductive ProjectStatus := Active | Finished.

#[global] Instance ProjectStatus_eq_dec : EqDecision ProjectStatus.
Proof. solve_decision. Defined.

(** [class Project]. *)
Record Project := {
  id : jsstring;
  title : jsstring;
  description : jsstring;
  people : number;
  status : ProjectStatus;
}.

(** The assignment [project.status = newStatus]. *)
Definition set_status (s : ProjectStatus) (p : Project) : Project :=
  {| id := id p; title := title p; description := description p;
     people := people p; status := s |}.

(** Heap addresses.  [Project] instances and [Project[]] arrays are
    objects with identity: the store's array and the arrays handed to
    listeners hold references to the same [Project] objects. *)
Abbreviation loc := positive.

(** A [Listener<Project>] is a callback [(items: Project[]) => void].
    What the store can observe of a callback is what it does to the array
    it is handed: [run] maps the array's content at the call to its
    content at the return (the identity for a callback that only reads,
    [λ l, l ++ [o]] for one that pushes, [reverse] for one that
    reorders).  [fn] tells apart two callbacks with the same [run].
    Callbacks that call back into the store or assign to the fields of a
    [Project] are outside the model. *)
Record Listener := {
  fn : nat;
  run : list loc → list loc;
}.

(** One invocation [listenerFn(items)]: the callback, the array passed,
    and the projects that array held at the call. *)
Record Call := {
  callee : Listener;
  items : loc;
  seen : list Project;
}.

(** The instance of [ProjectState] together with the heap it lives in.
    [listeners] is [this.listeners] (an array that never leaves the
    class, kept as its content); [projects] is the reference held by
    [this.projects]; [calls] records the listener invocations so far,
    oldest first. *)
Record State := {
  objects : gmap loc Project;
  arrays : gmap loc (list loc);
  listeners : list Listener;
  projects : loc;
  calls : list Call;
}.

(** [new ProjectState()]: both fields are initialised to a new empty
    array. *)
Definition init : State :=
  {| objects := ∅; arrays := {[ 1%positive := [] ]}; listeners := [];
     projects := 1%positive; calls := [] |}.

(** The content of the array [this.projects]. *)
Definition content (st : State) : list loc :=
  default [] (arrays st !! projects st).

(** The projects an array content refers to. *)
Definition deref (objs : gmap loc Project) (l : list loc) : list Project :=
  omap (λ o, objs !! o) l.

(** The store's project collection, in order. *)
Definition collection (st : State) : list Project :=
  deref (objects st) (content st).

Definition project_ids (st : State) : list jsstring :=
  id <$> collection st.

(** [addListener(listenerFn)]: [this.listeners.push(listenerFn)]. *)
Definition addListener (listenerFn : Listener) (st : State) : State :=
  {| objects := objects st; arrays := arrays st;
     listeners := listeners st ++ [listenerFn];
     projects := projects st; calls := calls st |}.

(** [listenerFn(this.projects.slice())]: [slice] allocates a new array
    with the content of [this.projects]; the callback runs on it. *)
Definition notify (listenerFn : Listener) (st : State) : State :=
  let snapshot := content st in
  let a := fresh (dom (arrays st)) in
  {| objects := objects st;
     arrays := <[ a := run listenerFn snapshot ]> (arrays st);
     listeners := listeners st;
     projects := projects st;
     calls := calls st ++
              [{| callee := listenerFn; items := a;
                  seen := deref (objects st) snapshot |}] |}.

(** [updateListeners()]: [for (const listenerFn of this.listeners)]. *)
Definition updateListeners (st : State) : State :=
  foldl (λ s listenerFn, notify listenerFn s) st (listeners st).

(** [addProject(title, description, numOfPeople)].  [rnd] is the string
    [Math.random().toString()] evaluates to at this call. *)
Definition addProject (rnd : jsstring)
    (title description : jsstring) (numOfPeople : number)
    (st : State) : State :=
  let newProject :=
    {| id := rnd; title := title; description := description;
       people := numOfPeople; status := Active |} in
  let o := fresh (dom (objects st)) in
  updateListeners
    {| objects := <[ o := newProject ]> (objects st);
       arrays := alter (λ l, l ++ [o]) (projects st) (arrays st);
       listeners := listeners st;
       projects := projects st;
       calls := calls st |}.

(** [this.projects.find((prj) => prj.id === projectId)] on an array
    content: the first project with that id, with its address. *)
Fixpoint find (objs : gmap loc Project) (projectId : jsstring)
    (l : list loc) : option (loc * Project) :=
  match l with
  | [] => None
  | o :: l' =>
      match objs !! o with
      | Some prj =>
          if decide (id prj = projectId) then Some (o, prj)
          else find objs projectId l'
      | None => find objs projectId l'
      end
  end.

(** [moveProject(projectId, newStatus)]. *)
Definition moveProject (projectId : jsstring) (newStatus : ProjectStatus)
    (st : State) : State :=
  match find (objects st) projectId (content st) with
  | Some (o, project) =>
      if decide (status project ≠ newStatus) then
        updateListeners
          {| objects := <[ o := set_status newStatus project ]> (objects st);
             arrays := arrays st;
             listeners := listeners st;
             projects := projects st;
             calls := calls st |}
      else st
  | None => st
  end.

(** The status [moveProject] would compare against: that of the first
    project with the given id. *)
Definition current_status (st : State) (projectId : jsstring)
  : option ProjectStatus :=
  (λ op, status op.2) <$> find (objects st) projectId (content st).

(** States of the store that a program can reach through the public
    methods. *)
Inductive reachable : State → Prop :=
| reachable_init : reachable init
| reachable_addListener l st :
    reachable st → reachable (addListener l st)
| reachable_addProject rnd t d n st :
    reachable st → reachable (addProject rnd t d n st)
| reachable_moveProject i s st :
    reachable st → reachable (moveProject i s st).

(** The same, when every id drawn by [addProject] differs from the ids
    already in the store. *)
Inductive reachable_distinct : State → Prop :=
| distinct_init : reachable_distinct init
| distinct_addListener l st :
    reachable_distinct st → reachable_distinct (addListener l st)
| distinct_addProject rnd t d n st :
    reachable_distinct st → rnd ∉ project_ids st →
    reachable_distinct (addProject rnd t d n st)
| distinct_moveProject i s st :
    reachable_distinct st → reachable_distinct (moveProject i s st).

(** Well-formed heap: [this.projects] is an allocated array of pairwise
    distinct addresses of allocated [Project] objects. *)
Definition wf (st : State) : Prop :=
  is_Some (arrays st !! projects st) ∧
  NoDup (content st) ∧
  ∀ o, o ∈ content st → is_Some (objects st !! o).

End Store.

(** ** The form (app.ts 303-385) *)

Module Form.
Import JS Validator Store.

(** The [value] of the three [HTMLInputElement]s of [ProjectForm]. *)
Record ProjectForm := {
  titlEl : jsstring;
  descriptionEl : jsstring;
  peopleEl : jsstring;
}.

(** What a submission acts on: the form, the messages shown by [alert]
    (oldest first) and the store [prjState]. *)
Record World := {
  form : ProjectForm;
  alerts : list jsstring;
  prjState : State;
}.

Definition alert (msg : jsstring) (w : World) : World :=
  {| form := form w; alerts := alerts w ++ [msg]; prjState := prjState w |}.

Section with_runtime.

Variable Number_toString : number → jsstring.

(** [StringToNumber], the unary [+] of [+enteredPeople]. *)
Variable ToNumber : jsstring → number.

(** The three rules built by [validateInputs] (app.ts 331-351). *)
Definition validateTitle (enteredTitle : jsstring) : validate :=
  {| value := Str enteredTitle; required := Some true;
     minLength := Some 5%float; maxLength := None;
     max := None; min := None; field := lit "Title" |}.

Definition validateDesc (enteredDesc : jsstring) : validate :=
  {| value := Str enteredDesc; required := Some true;
     minLength := Some 10%float; maxLength := None;
     max := None; min := None; field := lit "Description" |}.

Definition validatePeole (enteredPeople : jsstring) : validate :=
  {| value := Num (ToNumber enteredPeople); required := Some true;
     minLength := None; maxLength := None;
     max := Some 5%float; min := Some 1%float; field := lit "People" |}.

(** [validateInputs()]: the tuple, or [None] for [undefined]. *)
Definition validateInputs (w : World)
  : World * option (jsstring * jsstring * number) :=
  let enteredTitle := titlEl (form w) in
  let enteredDesc := descriptionEl (form w) in
  let enteredPeople := peopleEl (form w) in
  if negb (isValid (validatedInput Number_toString
                      (validateTitle enteredTitle))) then
    (alert (message (validatedInput Number_toString
                       (validateTitle enteredTitle))) w, None)
  else if negb (isValid (validatedInput Number_toString
                           (validateDesc enteredDesc))) then
    (alert (message (validatedInput Number_toString
                       (validateDesc enteredDesc))) w, None)
  else if negb (isValid (validatedInput Number_toString
                           (validatePeole enteredPeople))) then
    (alert (message (validatedInput Number_toString
                       (validatePeole enteredPeople))) w, None)
  else
    (w, Some (enteredTitle, enteredDesc, ToNumber enteredPeople)).

(** [clearInput()]. *)
Definition clearInput (w : World) : World :=
  {| form := {| titlEl := []; descriptionEl := []; peopleEl := [] |};
     alerts := alerts w; prjState := prjState w |}.

(** [getInputValues()]; [rnd] is the id [addProject] would draw. *)
Definition getInputValues (rnd : jsstring) (w : World) : World :=
  let '(w, inputValues) := validateInputs w in
  match inputValues with
  | Some (title, desc, people) =>
      clearInput
        {| form := form w; alerts := alerts w;
           prjState := addProject rnd title desc people (prjState w) |}
  | None => w
  end.

(** [handleSubmit(e)]: [e.preventDefault()] does not touch the world. *)
Definition handleSubmit (rnd : jsstring) (w : World) : World :=
  getInputValues rnd w.

End with_runtime.

End Form.

(** ** Instances of the runtime conversions

    Executable instances of the two parameters, used to run the program
    on concrete inputs.  Each agrees with ECMAScript on the domain stated
    with it, which covers the inputs of the examples. *)

Module Runtime.
Import JS.

(** The decimal digits of a natural number. *)
Definition digits (n : N) : jsstring :=
  lit (NilZero.string_of_uint (N.to_uint n)).

(** Removes the leading zeros. *)
Fixpoint drop_zeros (s : jsstring) : jsstring :=
  match s with
  | c :: s' => if (c =? 48)%N then drop_zeros s' else s
  | [] => []
  end.

(** The digits after the decimal point of [r / 2^k], for [r < 2^k]:
    those of [r * 5^k], left-padded to [k] places, without the trailing
    zeros. *)
Definition fraction_digits (r : N) (k : N) : jsstring :=
  let d := digits (r * 5 ^ k) in
  let padded := replicate (N.to_nat k - length d) 48%N ++ d in
  reverse (drop_zeros (reverse padded)).

(** [Number::toString] on NaN, the infinities, the zeros and the integers
    of magnitude below 10^21, where it prints the decimal digits.  On a
    number with a fractional part this instance prints the exact decimal
    expansion, which ECMAScript shortens to the fewest digits that still
    identify the number. *)
Definition Number_toString (x : number) : jsstring :=
  match Prim2SF x with
  | S754_nan => lit "NaN"
  | S754_zero _ => lit "0"
  | S754_infinity s => (if s then lit "-" else []) ++ lit "Infinity"
  | S754_finite s m e =>
      (if s then lit "-" else []) ++
      match e with
      | Z0 => digits (Npos m)
      | Zpos k => digits (Npos m * 2 ^ Npos k)
      | Zneg k =>
          let q := (Npos m / 2 ^ Npos k)%N in
          let r := (Npos m mod 2 ^ Npos k)%N in
          if (r =? 0)%N then digits q
          else digits q ++ lit "." ++ fraction_digits r (Npos k)
      end
  end.

(** The value of a string of decimal digits; [None] when another
    character occurs. *)
Fixpoint decimal_value (acc : N) (s : jsstring) : option N :=
  match s with
  | [] => Some acc
  | c :: s' =>
      if ((48 <=? c) && (c <=? 57))%N
      then decimal_value (10 * acc + (c - 48)) s'
      else None
  end.

(** [StringToNumber] on blank strings (0) and on unsigned decimal
    integers of at most 18 digits, possibly surrounded by white space.
    Every other string is mapped to NaN, which is the result of
    [StringToNumber] when the string is not a numeric literal; signs,
    fractions, exponents, hexadecimal literals and [Infinity] are numeric
    literals that this instance does not read. *)
Definition ToNumber (s : jsstring) : number :=
  let t := trim s in
  if bool_decide (length t ≤ 18) then
    match decimal_value 0 t with
    | Some n => PrimFloat.of_uint63 (Uint63.of_Z (Z.of_N n))
    | None => nan
    end
  else nan.

End Runtime.

(** ** The widgets and the drag-and-drop handlers (app.ts 186-300)

    [ProjectItem] and [ProjectList], as far as the program decides what
    they show and what they do to the store.  Of the document only what
    the program writes is kept: the children of each list's [ul], the
    text of the three elements of a card, the [droppable] class.  The
    [DataTransfer] of a drag event is the platform's: an ordered list of
    (format, data) entries, on which [setData] replaces the entry of its
    format and adds the new one last, [getData] returns the data of a
    format or [''], and [types] lists the formats in order. *)

Module Board.
Import JS Validator Store Form.

Record DataTransfer := {
  data : list (jsstring * jsstring);
  effectAllowed : jsstring;
}.

Definition setData (format d : jsstring) (dt : DataTransfer)
  : DataTransfer :=
  {| data := filter (λ e, e.1 ≠ format) (data dt) ++ [(format, d)];
     effectAllowed := effectAllowed dt |}.

Fixpoint lookup_format (format : jsstring)
    (l : list (jsstring * jsstring)) : option jsstring :=
  match l with
  | [] => None
  | e :: l' => if decide (e.1 = format) then Some e.2
               else lookup_format format l'
  end.

Definition getData (format : jsstring) (dt : DataTransfer) : jsstring :=
  default [] (lookup_format format (data dt)).

Definition types (dt : DataTransfer) : list jsstring := (data dt).*1.

(** A [DragEvent]: [dataTransfer] may be [null]. *)
Record DragEvent := {
  dataTransfer : option DataTransfer;
  defaultPrevented : bool;
}.

(** The [type] of a [ProjectList]: ['active' | 'finished']. *)
Inductive ListType := active | finished.

(** The element of a [ProjectItem]: its [id] attribute when the
    constructor assigned one, and the text of its [h2], [h3] and [p]. *)
Record ProjectItem := {
  project : Project;
  el_id : option jsstring;
  h2 : jsstring;
  h3 : jsstring;
  para : jsstring;
}.

(** [ProjectList]: [ul] is the list of children of its [ul] element,
    [droppable] says whether that element has the class. *)
Record ProjectList := {
  type : ListType;
  assignedProjects : list Project;
  ul : list ProjectItem;
  droppable : bool;
}.

Section with_runtime.

Variable Number_toString : number → jsstring.
Variable ToNumber : jsstring → number.

(** [get persons()] (app.ts 192-198). *)
Definition persons (prj : Project) : jsstring :=
  if PrimFloat.eqb (people prj) 1%float then lit "1 person"
  else Number_toString (people prj) ++ lit " persons".

(** [new ProjectItem(hostId, project)]: the element is created with
    [if (elId) this.el.id = elId] and filled by [renderContent]. *)
Definition new_ProjectItem (prj : Project) : ProjectItem :=
  {| project := prj;
     el_id := if truthy (Str (id prj)) then Some (id prj) else None;
     h2 := title prj;
     h3 := persons prj ++ lit " assigned";
     para := description prj |}.

(** [handleDragStart(event)]; [None] is the [TypeError] of
    [event.dataTransfer!] on [null]. *)
Definition handleDragStart (item : ProjectItem) (event : DragEvent)
  : option DragEvent :=
  match dataTransfer event with
  | Some dt =>
      let dt := setData (lit "text/plain") (id (project item)) dt in
      Some {| dataTransfer :=
                Some {| data := data dt; effectAllowed := lit "move" |};
              defaultPrevented := defaultPrevented event |}
  | None => None
  end.

(** [new ProjectList(type)]. *)
Definition new_ProjectList (t : ListType) : ProjectList :=
  {| type := t; assignedProjects := []; ul := []; droppable := false |}.

(** The test of the callback's [filter] (app.ts 274-279). *)
Definition stays (t : ListType) (prj : Project) : Prop :=
  match t with
  | active => status prj = Active
  | finished => status prj = Finished
  end.

#[global] Instance stays_dec t prj : Decision (stays t prj).
Proof. destruct t; simpl; apply _. Defined.

(** [renderProjects()]: the list is emptied, then one [ProjectItem] per
    assigned project is inserted at the end. *)
Definition renderProjects (pl : ProjectList) : ProjectList :=
  {| type := type pl; assignedProjects := assignedProjects pl;
     ul := foldl (λ children prjItem,
                    children ++ [new_ProjectItem prjItem])
                 [] (assignedProjects pl);
     droppable := droppable pl |}.

(** The callback registered by [config()], as it acts on its list. *)
Definition on_projects (projects : list Project) (pl : ProjectList)
  : ProjectList :=
  renderProjects
    {| type := type pl;
       assignedProjects := filter (stays (type pl)) projects;
       ul := ul pl; droppable := droppable pl |}.

(** [handleDragOver(event)]. *)
Definition handleDragOver (event : DragEvent) (pl : ProjectList)
  : DragEvent * ProjectList :=
  match dataTransfer event with
  | Some dt =>
      if decide (types dt !! 0 = Some (lit "text/plain")) then
        ({| dataTransfer := dataTransfer event;
            defaultPrevented := true |},
         {| type := type pl; assignedProjects := assignedProjects pl;
            ul := ul pl; droppable := true |})
      else (event, pl)
  | None => (event, pl)
  end.

(** [handleDragLeave(_)]. *)
Definition handleDragLeave (pl : ProjectList) : ProjectList :=
  {| type := type pl; assignedProjects := assignedProjects pl;
     ul := ul pl; droppable := false |}.

(** [this.type === 'active' ? ProjectStatus.Active :
    ProjectStatus.Finished] (app.ts 248). *)
Definition target (t : ListType) : ProjectStatus :=
  match t with active => Active | finished => Finished end.

(** The page: the form and the store, and the two lists created at the
    end of the file. *)
Record Page := {
  world : World;
  activeProj : ProjectList;
  finishedProj : ProjectList;
}.

(** The callback of a list as the store knows it: [projects.filter]
    builds another array, the one received is left as it is. *)
Definition list_listener (t : ListType) : Listener :=
  {| fn := match t with active => 0 | finished => 1 end;
     run := λ projects, projects |}.

(** One listener call reaching the list that registered the callback. *)
Definition deliver (pg : Page) (c : Call) : Page :=
  if decide (fn (callee c) = fn (list_listener active)) then
    {| world := world pg;
       activeProj := on_projects (seen c) (activeProj pg);
       finishedProj := finishedProj pg |}
  else if decide (fn (callee c) = fn (list_listener finished)) then
    {| world := world pg;
       activeProj := activeProj pg;
       finishedProj := on_projects (seen c) (finishedProj pg) |}
  else pg.

(** The calls made since the call log had [n] entries, delivered in
    order. *)
Definition settle (n : nat) (pg : Page) : Page :=
  foldl deliver pg (drop n (calls (prjState (world pg)))).

(** The three statements at the end of the file. *)
Definition startup : Page :=
  {| world :=
       {| form := {| titlEl := []; descriptionEl := []; peopleEl := [] |};
          alerts := [];
          prjState := addListener (list_listener finished)
                        (addListener (list_listener active) init) |};
     activeProj := new_ProjectList active;
     finishedProj := new_ProjectList finished |}.

(** Typing into the three inputs. *)
Definition fill (f : ProjectForm) (pg : Page) : Page :=
  {| world := {| form := f; alerts := alerts (world pg);
                 prjState := prjState (world pg) |};
     activeProj := activeProj pg; finishedProj := finishedProj pg |}.

(** A [submit] event on the form. *)
Definition submit (rnd : jsstring) (pg : Page) : Page :=
  settle (length (calls (prjState (world pg))))
    {| world := handleSubmit Number_toString ToNumber rnd (world pg);
       activeProj := activeProj pg; finishedProj := finishedProj pg |}.

(** [handleDragDrop(event)] of the list of type [t]; [None] is the
    [TypeError] of [event.dataTransfer!] on [null]. *)
Definition handleDragDrop (t : ListType) (event : DragEvent) (pg : Page)
  : option Page :=
  match dataTransfer event with
  | Some dt =>
      let prjId := getData (lit "text/plain") dt in
      Some (settle (length (calls (prjState (world pg))))
              {| world :=
                   {| form := form (world pg);
                      alerts := alerts (world pg);
                      prjState := moveProject prjId (target t)
                                    (prjState (world pg)) |};
                 activeProj := activeProj pg;
                 finishedProj := finishedProj pg |})
  | None => None
  end.

(** [dragover] and [dragleave] on the list of type [t]. *)
Definition on_list (t : ListType) (f : ProjectList → ProjectList)
    (pg : Page) : Page :=
  match t with
  | active =>
      {| world := world pg; activeProj := f (activeProj pg);
         finishedProj := finishedProj pg |}
  | finished =>
      {| world := world pg; activeProj := activeProj pg;
         finishedProj := f (finishedProj pg) |}
  end.

Definition the_list (t : ListType) (pg : Page) : ProjectList :=
  match t with active => activeProj pg | finished => finishedProj pg end.

(** The pages a user can bring about. *)
Inductive page_reachable : Page → Prop :=
| page_startup : page_reachable startup
| page_fill f pg : page_reachable pg → page_reachable (fill f pg)
| page_submit rnd pg : page_reachable pg → page_reachable (submit rnd pg)
| page_dragover t event pg :
    page_reachable pg →
    page_reachable
      (on_list t (λ pl, (handleDragOver event pl).2) pg)
| page_dragleave t pg :
    page_reachable pg → page_reachable (on_list t handleDragLeave pg)
| page_drop t event pg pg' :
    page_reachable pg → handleDragDrop t event pg = Some pg' →
    page_reachable pg'.

End with_runtime.

End Board.

(** * Properties *)

(** ** The validator *)

Module ValidatorFacts.
Import JS Validator.

(** The rules of the two examples of the specification. *)
Definition people6 : validate :=
  {| value := Num 6%float; required := None;
     minLength := None; maxLength := None;
     max := Some 5%float; min := Some 1%float; field := lit "People" |}.

Definition title_empty : validate :=
  {| value := Str []; required := Some true;
     minLength := None; maxLength := None;
     max := None; min := None; field := lit "Title" |}.

(** A rule with no length or range constraint. *)
Definition bare_rule (q : option bool) (fld : jsstring) (x : JS.value)
  : validate :=
  {| value := x; required := q;
     minLength := None; maxLength := None;
     max := None; min := None; field := fld |}.

Section with_runtime.

Variable Number_toString : number → jsstring.

Local Abbreviation validatedInput :=
  (Validator.validatedInput Number_toString).

(** The blocks entered for a rule, in program order: the test of each
    and the message it would assign. *)
Definition entered (v : validate) : list (bool * jsstring) :=
  (if truthy (value v)
   then [(negb (length (trim (toString Number_toString (value v))) =? 0),
          msg_required v)]
   else []) ++
  match maxLength v, value v with
  | Some n, Str s => [(le (length_number s) n, msg_maxLength Number_toString v n)]
  | _, _ => []
  end ++
  match minLength v, value v with
  | Some n, Str s => [(ge (length_number s) n, msg_minLength Number_toString v n)]
  | _, _ => []
  end ++
  match max v, value v with
  | Some n, Num x => [(le x n, msg_max Number_toString v n)]
  | _, _ => []
  end ++
  match min v, value v with
  | Some n, Num x => [(ge x n, msg_min Number_toString v n)]
  | _, _ => []
  end.

(** Running a sequence of blocks from an accumulator. *)
Definition run_blocks (bs : list (bool * jsstring)) (r : result) : result :=
  foldl (λ r b, check b.1 b.2 r) r bs.

Lemma validatedInput_blocks v :
  validatedInput v =
  run_blocks (entered v) {| isValid := true; message := [] |}.
Proof.
  unfold Validator.validatedInput, entered, run_blocks.
  unfold check_required, check_maxLength, check_minLength,
    check_max, check_min.
  destruct (truthy (value v)), (maxLength v), (minLength v),
    (max v), (min v), (value v); reflexivity.
Qed.

Lemma run_blocks_snoc bs b r :
  run_blocks (bs ++ [b]) r = check b.1 b.2 (run_blocks bs r).
Proof. unfold run_blocks. by rewrite foldl_app. Qed.

Lemma run_blocks_isValid bs r :
  isValid (run_blocks bs r) = isValid r && forallb fst bs.
Proof.
  revert r. induction bs as [|b bs IH]; intros r; simpl.
  - by rewrite andb_true_r.
  - unfold run_blocks in *. simpl. rewrite IH. simpl.
    by rewrite andb_assoc.
Qed.

(** Once the accumulated flag is false, the message is that of the last
    block entered, whether or not that block's own test failed. *)
Lemma run_blocks_message_invalid bs b r :
  isValid (run_blocks (bs ++ [b]) r) = false →
  message (run_blocks (bs ++ [b]) r) = b.2.
Proof.
  rewrite run_blocks_snoc. unfold check. simpl.
  intros ->. reflexivity.
Qed.

Lemma run_blocks_message_valid bs r :
  message r = [] →
  isValid (run_blocks bs r) = true →
  message (run_blocks bs r) = [].
Proof.
  intros Hr. destruct bs as [|b bs _] using rev_ind; [done|].
  rewrite run_blocks_snoc. unfold check. simpl. intros ->. reflexivity.
Qed.

(** The message of [validatedInput]: empty when the rule is valid,
    otherwise the message of the last block that was entered. *)
Lemma validatedInput_message v :
  message (validatedInput v) =
  if isValid (validatedInput v) then []
  else default [] (snd <$> last (entered v)).
Proof.
  rewrite validatedInput_blocks.
  destruct (isValid (run_blocks _ _)) eqn:E.
  - by apply run_blocks_message_valid.
  - destruct (entered v) as [|b bs _] using rev_ind.
    + discriminate E.
    + rewrite last_snoc. simpl. by apply run_blocks_message_invalid.
Qed.

(** A text value that is not empty but consists of white space fails the
    presence block, and the rule stays invalid whatever follows. *)
Lemma whitespace_only_invalid v s :
  value v = Str s → s ≠ [] → trim s = [] →
  isValid (validatedInput v) = false.
Proof.
  intros Hv Hs Ht. rewrite validatedInput_blocks, run_blocks_isValid.
  unfold entered. rewrite Hv. simpl. rewrite Ht.
  destruct s; [done|]. reflexivity.
Qed.

Lemma whitespace_only_message q fld s :
  s ≠ [] → trim s = [] →
  validatedInput (bare_rule q fld (Str s)) =
  {| isValid := false; message := fld ++ lit " field is required" |}.
Proof.
  intros Hs Ht. unfold Validator.validatedInput, check_required. simpl.
  rewrite Ht. destruct s; [done|]. reflexivity.
Qed.

(** With no other constraint, a rule is invalid exactly when its value
    is truthy and blank once trimmed. *)
Lemma bare_rule_isValid q fld x :
  isValid (validatedInput (bare_rule q fld x)) =
  negb (truthy x &&
        (length (trim (toString Number_toString x)) =? 0)).
Proof.
  unfold Validator.validatedInput, check_required; simpl.
  destruct (truthy x); simpl; [|done]. by destruct (_ =? _).
Qed.

(** The [required] property is not read by any block. *)
Lemma validatedInput_with_required q v :
  validatedInput (with_required q v) = validatedInput v.
Proof. reflexivity. Qed.

End with_runtime.

(** C1 (the code departs from it).  For the rule
    [{value: 6, max: 5, min: 1, field: "People"}] the function returns
    [isValid = false], but the message it returns is the one of the [min]
    block, [`People field most not be less than ${1} numbers`], although
    [6 >= 1] holds; it is not the message of the failing [max] block.  The
    [min] block is entered after the [max] block and assigns its message
    from the accumulated flag. *)
Theorem C1_people6_returns_min_message :
  ∀ Number_toString : number → jsstring,
    validatedInput Number_toString people6 =
      {| isValid := false;
         message := lit "People field most not be less than " ++
                    Number_toString 1%float ++ lit " numbers" |} ∧
    message (validatedInput Number_toString people6) ≠
      msg_max Number_toString people6 5%float.
Proof.
  intros nts.
  unfold validatedInput, check_required, people6; cbn [value toString].
  change (truthy (Num 6%float)) with true; cbv iota.
  destruct (length (trim (nts 6%float)) =? 0);
    (split; [vm_compute; reflexivity|]);
    vm_compute; intros H; discriminate H.
Qed.

(** The same run with the decimal printer. *)
Example people6_message :
  validatedInput Runtime.Number_toString people6 =
  {| isValid := false;
     message := lit "People field most not be less than 1 numbers" |}.
Proof. vm_compute. reflexivity. Qed.

(** Two blocks fail (presence, [maxLength]) and a third one passes
    ([minLength]): the message is that of the passing block, which was
    entered last. *)
Example blank_within_minLength :
  validatedInput Runtime.Number_toString
    {| value := Str (lit "   "); required := Some true;
       minLength := Some 1%float; maxLength := Some 2%float;
       max := None; min := None; field := lit "Title" |} =
  {| isValid := false;
     message := lit "Title field most not be less than 1 characters" |}.
Proof. vm_compute. reflexivity. Qed.

(** C2 (the code departs from it).  For the rule
    [{value: "", required: true, field: "Title"}] the function returns
    [isValid = true] and the empty message: the presence block is guarded
    by [if (validate.value)], the empty string is falsy, and the block is
    not entered. *)
Theorem C2_empty_title_is_valid :
  ∀ Number_toString : number → jsstring,
    validatedInput Number_toString title_empty =
      {| isValid := true; message := [] |}.
Proof. reflexivity. Qed.

(** C10.  Two rules that differ only in their [required] property
    ([true], [false] or absent) get the same result, flag and message.
    Whether the presence test is applied depends on the truthiness of the
    value alone: a rule with no other constraint is invalid exactly when
    its value is truthy and its text is blank after trimming, whatever
    [required] says. *)
Theorem C10_required_is_never_consulted :
  ∀ (Number_toString : number → jsstring) (q1 q2 : option bool),
    (∀ v : validate,
       validatedInput Number_toString (with_required q1 v) =
       validatedInput Number_toString (with_required q2 v)) ∧
    (∀ (fld : jsstring) (x : JS.value),
       isValid (validatedInput Number_toString (bare_rule q1 fld x)) =
       negb (truthy x &&
             (length (trim (toString Number_toString x)) =? 0))).
Proof.
  intros nts q1 q2. split.
  - intros v. by rewrite !validatedInput_with_required.
  - intros fld x. apply bare_rule_isValid.
Qed.

(** A title of three spaces with [required: false]: the presence block
    is entered all the same, and its message names the field and says
    "required". *)
Example blank_title_not_required :
  ∀ Number_toString : number → jsstring,
    let r := validatedInput Number_toString
               (bare_rule (Some false) (lit "Title") (Str (lit "   "))) in
    isValid r = false ∧
    mentions (lit "Title") (message r) ∧
    mentions (lit "required") (message r).
Proof.
  intros nts r. split; [reflexivity|]. split.
  - by exists [], (lit " field is required").
  - by exists (lit "Title field is "), [].
Qed.

End ValidatorFacts.

(** ** The store *)

Module StoreFacts.
Import JS Store.

(** The loop of [updateListeners] over any list of callbacks. *)
Definition notify_all (ls : list Listener) (st : State) : State :=
  foldl (λ s listenerFn, notify listenerFn s) st ls.

(** What a round of notifications from [st] to [st'] consists of: one
    call per callback of [ls], in the order of [ls]; each call sees the
    collection [shown], on an array that was not allocated in [st] and
    that holds, in [st'], what the callback made of the content [given]. *)
Definition round (ls : list Listener) (shown : list Project)
    (given : list loc) (st st' : State) : Prop :=
  ∃ new,
    calls st' = calls st ++ new ∧
    callee <$> new = ls ∧
    Forall (λ c, seen c = shown ∧
                 arrays st !! items c = None ∧
                 arrays st' !! items c = Some (run (callee c) given)) new.

(** The store after [this.projects.push(newProject)]. *)
Definition pushed (newProject : Project) (st : State) : State :=
  {| objects := <[ fresh (dom (objects st)) := newProject ]> (objects st);
     arrays := alter (λ l, l ++ [fresh (dom (objects st))])
                     (projects st) (arrays st);
     listeners := listeners st;
     projects := projects st;
     calls := calls st |}.

(** The store after [project.status = newStatus] on the object at [o]. *)
Definition assigned (o : loc) (p : Project) (st : State) : State :=
  {| objects := <[ o := p ]> (objects st);
     arrays := arrays st;
     listeners := listeners st;
     projects := projects st;
     calls := calls st |}.

(** A round of notifications with copies, from [st] to [st']: the calls
    added are one per registered listener, in registration order; each
    saw the whole collection of [st'], on an array that is not the
    store's and did not exist in [st]; after the round that array holds
    what the callback made of it. *)
Definition notified_with_copies (st st' : State) : Prop :=
  ∃ new,
    calls st' = calls st ++ new ∧
    callee <$> new = listeners st' ∧
    Forall (λ c, seen c = collection st' ∧
                 items c ≠ projects st' ∧
                 arrays st !! items c = None ∧
                 arrays st' !! items c =
                   Some (run (callee c) (content st'))) new.

(** Example data: a callback that pushes the items it received once
    more, one that reverses its array, and a board with both registered
    and two projects. *)
Definition pusher : Listener := {| fn := 0; run := λ l, l ++ l |}.

Definition reverser : Listener := {| fn := 1; run := reverse |}.

Definition board : State :=
  addProject (lit "0.25") (lit "Second plan") (lit "Write the manual")
    2%float
    (addProject (lit "0.5") (lit "My Project") (lit "Build the thing")
       3%float
       (addListener reverser (addListener pusher init))).

(** Two calls of [addProject] in which [Math.random()] returned the same
    number. *)
Definition twins : State :=
  addProject (lit "0.5") (lit "Second plan") (lit "Write the manual")
    2%float
    (addProject (lit "0.5") (lit "My Project") (lit "Build the thing")
       3%float init).

Section heap.

Implicit Types (st : State) (l : Listener) (ls : list Listener).
Implicit Types (o a : loc) (p : Project) (s : ProjectStatus).
Implicit Types (objs : gmap loc Project) (i : jsstring).

Lemma updateListeners_notify_all st :
  updateListeners st = notify_all (listeners st) st.
Proof. reflexivity. Qed.

Lemma fresh_array_unallocated st :
  arrays st !! fresh (dom (arrays st)) = None.
Proof. apply not_elem_of_dom, is_fresh. Qed.

Lemma fresh_object_unallocated st :
  objects st !! fresh (dom (objects st)) = None.
Proof. apply not_elem_of_dom, is_fresh. Qed.

(** [slice] allocates: every array that exists is left as it is. *)
Lemma notify_lookup_old l st a :
  is_Some (arrays st !! a) →
  arrays (notify l st) !! a = arrays st !! a.
Proof.
  intros Ha. unfold notify; simpl. apply lookup_insert_ne.
  intros <-. rewrite fresh_array_unallocated in Ha. by destruct Ha.
Qed.

Lemma notify_content l st :
  is_Some (arrays st !! projects st) →
  content (notify l st) = content st.
Proof.
  intros H. unfold content.
  change (projects (notify l st)) with (projects st).
  by rewrite notify_lookup_old.
Qed.

Lemma notify_all_spec ls : ∀ st,
  is_Some (arrays st !! projects st) →
  objects (notify_all ls st) = objects st ∧
  listeners (notify_all ls st) = listeners st ∧
  projects (notify_all ls st) = projects st ∧
  (∀ a, is_Some (arrays st !! a) →
        arrays (notify_all ls st) !! a = arrays st !! a) ∧
  round ls (collection st) (content st) st (notify_all ls st).
Proof.
  induction ls as [|l ls IH]; intros st Hp.
  - repeat split; try done. exists []. by rewrite app_nil_r.
  - change (notify_all (l :: ls) st) with (notify_all ls (notify l st)).
    set (st1 := notify l st).
    assert (Hp1 : is_Some (arrays st1 !! projects st1)).
    { unfold st1. change (projects (notify l st)) with (projects st).
      by rewrite notify_lookup_old. }
    destruct (IH st1 Hp1) as (Ho & Hl & Hpr & Hold & new & Hc & Hn & Hall).
    assert (Hkeep : ∀ a, is_Some (arrays st !! a) →
                         is_Some (arrays st1 !! a)).
    { intros a Ha. unfold st1. by rewrite notify_lookup_old. }
    split; [by rewrite Ho|]. split; [by rewrite Hl|].
    split; [by rewrite Hpr|]. split.
    { intros a Ha. rewrite Hold by auto. by apply notify_lookup_old. }
    exists ({| callee := l; items := fresh (dom (arrays st));
               seen := deref (objects st) (content st) |} :: new).
    split; [|split].
    + rewrite Hc. unfold st1, notify; simpl. by rewrite <- app_assoc.
    + by rewrite fmap_cons, Hn.
    + constructor.
      * simpl. split; [done|]. split; [apply fresh_array_unallocated|].
        rewrite Hold.
        -- unfold st1, notify; simpl. apply lookup_insert_eq.
        -- unfold st1, notify; simpl. rewrite lookup_insert_eq. eauto.
      * eapply Forall_impl; [exact Hall|]. intros c (Hs & Hnone & Hsome).
        assert (Hcont : content st1 = content st)
          by (by apply notify_content).
        split; [|split].
        -- rewrite Hs. unfold collection. by rewrite Hcont.
        -- destruct (arrays st !! items c) eqn:E; [|done].
           assert (is_Some (arrays st1 !! items c)) as [? Hx]
             by (apply Hkeep; eauto).
           congruence.
        -- by rewrite <- Hcont.
Qed.

Lemma updateListeners_spec st :
  is_Some (arrays st !! projects st) →
  objects (updateListeners st) = objects st ∧
  listeners (updateListeners st) = listeners st ∧
  projects (updateListeners st) = projects st ∧
  arrays (updateListeners st) !! projects st = arrays st !! projects st ∧
  content (updateListeners st) = content st ∧
  round (listeners st) (collection st) (content st) st (updateListeners st).
Proof.
  intros Hp. rewrite updateListeners_notify_all.
  destruct (notify_all_spec (listeners st) st Hp)
    as (Ho & Hl & Hpr & Hold & Hr).
  repeat split; try done; [by apply Hold|].
  unfold content. by rewrite Hpr, Hold.
Qed.

(** *** Dereferencing and searching an array content *)

Lemma deref_cons objs o (l : list loc) :
  deref objs (o :: l) =
  match objs !! o with
  | Some p => p :: deref objs l
  | None => deref objs l
  end.
Proof. reflexivity. Qed.

Lemma deref_app objs (l1 l2 : list loc) :
  deref objs (l1 ++ l2) = deref objs l1 ++ deref objs l2.
Proof. apply omap_app. Qed.

Lemma deref_insert_notin objs o p (l : list loc) :
  o ∉ l → deref (<[ o := p ]> objs) l = deref objs l.
Proof.
  induction l as [|o' l IH]; [done|].
  rewrite not_elem_of_cons. intros [Hne Hl]. rewrite !deref_cons.
  rewrite lookup_insert_ne by done. by rewrite IH.
Qed.

Lemma elem_of_deref objs o p (l : list loc) :
  o ∈ l → objs !! o = Some p → p ∈ deref objs l.
Proof. intros Ho Hp. apply list_elem_of_omap. eauto. Qed.

(** Assigning a status does not change the ids held by an array. *)
Lemma deref_ids_set_status objs o p s (l : list loc) :
  objs !! o = Some p →
  id <$> deref (<[ o := set_status s p ]> objs) l = id <$> deref objs l.
Proof.
  intros Hp. induction l as [|o' l IH]; [done|].
  rewrite !deref_cons. destruct (decide (o = o')) as [<-|Hne].
  - rewrite lookup_insert_eq, Hp, !fmap_cons. by rewrite IH.
  - rewrite lookup_insert_ne by done.
    destruct (objs !! o'); rewrite ?fmap_cons; by rewrite IH.
Qed.

Lemma find_Some objs i (l : list loc) o p :
  find objs i l = Some (o, p) →
  o ∈ l ∧ objs !! o = Some p ∧ id p = i.
Proof.
  induction l as [|o' l IH]; [done|]. simpl.
  destruct (objs !! o') as [q|] eqn:E.
  - case_decide as Hid.
    + intros [= <- <-]. split; [left|done].
    + intros H. destruct (IH H) as (? & ? & ?). split; [by right|done].
  - intros H. destruct (IH H) as (? & ? & ?). split; [by right|done].
Qed.

Lemma find_None objs i (l : list loc) :
  i ∉ id <$> deref objs l → find objs i l = None.
Proof.
  induction l as [|o' l IH]; [done|]. rewrite deref_cons. simpl.
  destruct (objs !! o') as [q|] eqn:E; [|done].
  rewrite fmap_cons, not_elem_of_cons. intros [Hne Hl].
  case_decide; [congruence|]. by apply IH.
Qed.

Lemma find_is_Some objs i (l : list loc) :
  i ∈ id <$> deref objs l → is_Some (find objs i l).
Proof.
  induction l as [|o' l IH].
  - by intros ?%elem_of_nil.
  - rewrite deref_cons. simpl.
    destruct (objs !! o') as [q|] eqn:E; [|done].
    case_decide; [eauto|].
    rewrite fmap_cons, elem_of_cons. intros [?|?]; [congruence|by apply IH].
Qed.

(** After the assignment, the search finds the same object. *)
Lemma find_set_status objs i (l : list loc) o p s :
  find objs i l = Some (o, p) →
  find (<[ o := set_status s p ]> objs) i l = Some (o, set_status s p).
Proof.
  induction l as [|o' l IH]; [done|]. simpl. intros H.
  destruct (decide (o = o')) as [<-|Hne].
  - rewrite lookup_insert_eq. simpl.
    destruct (objs !! o) as [q|] eqn:E.
    + case_decide as Hid.
      * injection H as <-. by rewrite decide_True.
      * apply find_Some in H as (_ & Hq & Hi). congruence.
    + apply find_Some in H as (_ & Hq & _). congruence.
  - rewrite lookup_insert_ne by done.
    destruct (objs !! o') as [q|]; [|by apply IH].
    case_decide; [congruence|by apply IH].
Qed.

(** *** The two assignments, before the listeners are called *)

Lemma addProject_pushed rnd t d n st :
  addProject rnd t d n st =
  updateListeners
    (pushed {| id := rnd; title := t; description := d; people := n;
               status := Active |} st).
Proof. reflexivity. Qed.

Lemma moveProject_assigned i s st o p :
  find (objects st) i (content st) = Some (o, p) → status p ≠ s →
  moveProject i s st = updateListeners (assigned o (set_status s p) st).
Proof. intros Hf Hs. unfold moveProject. rewrite Hf. by rewrite decide_True. Qed.

Lemma moveProject_same i s st o p :
  find (objects st) i (content st) = Some (o, p) → status p = s →
  moveProject i s st = st.
Proof.
  intros Hf Hs. unfold moveProject. rewrite Hf.
  rewrite decide_False; [done|]. intros H. by apply H.
Qed.

Lemma moveProject_absent i s st :
  find (objects st) i (content st) = None → moveProject i s st = st.
Proof. intros Hf. unfold moveProject. by rewrite Hf. Qed.

Lemma fresh_notin_content st :
  wf st → fresh (dom (objects st)) ∉ content st.
Proof.
  intros (_ & _ & Hall) Hin. apply Hall in Hin as [p Hp].
  by rewrite fresh_object_unallocated in Hp.
Qed.

Lemma pushed_content p st :
  is_Some (arrays st !! projects st) →
  content (pushed p st) = content st ++ [fresh (dom (objects st))].
Proof.
  intros [l Hl]. unfold content, pushed; simpl.
  by rewrite lookup_alter_eq, Hl.
Qed.

Lemma pushed_collection p st :
  wf st → collection (pushed p st) = collection st ++ [p].
Proof.
  intros Hwf. unfold collection. rewrite pushed_content by apply Hwf.
  unfold pushed; simpl. rewrite deref_app.
  rewrite deref_insert_notin by by apply fresh_notin_content.
  rewrite deref_cons, lookup_insert_eq. done.
Qed.

(** *** Well-formedness is an invariant *)

Lemma wf_init : wf init.
Proof.
  unfold wf, content, init; simpl. rewrite lookup_singleton_eq. simpl.
  split; [eauto|]. split; [constructor|]. by intros o ?%elem_of_nil.
Qed.

Lemma wf_addListener l st : wf st → wf (addListener l st).
Proof. done. Qed.

Lemma wf_updateListeners st : wf st → wf (updateListeners st).
Proof.
  intros (Hp & Hnd & Hall).
  destruct (updateListeners_spec st Hp) as (Ho & _ & Hpr & Ha & Hc & _).
  unfold wf. by rewrite Hc, Ho, Hpr, Ha.
Qed.

Lemma wf_pushed p st : wf st → wf (pushed p st).
Proof.
  intros Hwf. pose proof Hwf as (Hp & Hnd & Hall).
  unfold wf. rewrite pushed_content by done. split; [|split].
  - unfold pushed; simpl. by rewrite lookup_alter_is_Some.
  - apply NoDup_app. split; [done|]. split; [|apply NoDup_singleton].
    intros o Ho ->%list_elem_of_singleton.
    by apply (fresh_notin_content st).
  - intros o [Ho| ->%list_elem_of_singleton]%elem_of_app;
      unfold pushed; simpl; rewrite lookup_insert_is_Some'; auto.
Qed.

Lemma wf_assigned o p st : wf st → wf (assigned o p st).
Proof.
  intros (Hp & Hnd & Hall). split; [done|]. split; [done|].
  intros o' Ho'. unfold assigned; simpl.
  rewrite lookup_insert_is_Some'. right. by apply Hall.
Qed.

Lemma wf_addProject rnd t d n st : wf st → wf (addProject rnd t d n st).
Proof.
  intros H. rewrite addProject_pushed.
  by apply wf_updateListeners, wf_pushed.
Qed.

Lemma wf_moveProject i s st : wf st → wf (moveProject i s st).
Proof.
  intros H. unfold moveProject.
  destruct (find _ _ _) as [[o p]|]; [|done].
  case_decide; [|done]. by apply wf_updateListeners, wf_assigned.
Qed.

Lemma reachable_wf st : reachable st → wf st.
Proof.
  induction 1; auto using wf_init, wf_addListener, wf_addProject,
    wf_moveProject.
Qed.

Lemma reachable_distinct_reachable st :
  reachable_distinct st → reachable st.
Proof. induction 1; by constructor. Qed.

(** *** The ids in the store *)

Lemma updateListeners_collection st :
  is_Some (arrays st !! projects st) →
  collection (updateListeners st) = collection st.
Proof.
  intros Hp. destruct (updateListeners_spec st Hp) as (Ho & _ & _ & _ & Hc & _).
  unfold collection. by rewrite Ho, Hc.
Qed.

Lemma addProject_collection rnd t d n st :
  wf st →
  collection (addProject rnd t d n st) =
  collection st ++ [{| id := rnd; title := t; description := d;
                       people := n; status := Active |}].
Proof.
  intros Hwf. rewrite addProject_pushed.
  rewrite updateListeners_collection by apply wf_pushed, Hwf.
  by apply pushed_collection.
Qed.

Lemma addListener_project_ids l st :
  project_ids (addListener l st) = project_ids st.
Proof. reflexivity. Qed.

Lemma addProject_project_ids rnd t d n st :
  wf st → project_ids (addProject rnd t d n st) = project_ids st ++ [rnd].
Proof.
  intros Hwf. unfold project_ids.
  rewrite addProject_collection by done. by rewrite fmap_app.
Qed.

Lemma moveProject_project_ids i s st :
  wf st → project_ids (moveProject i s st) = project_ids st.
Proof.
  intros Hwf. unfold moveProject.
  destruct (find _ _ _) as [[o p]|] eqn:Hf; [|done].
  case_decide; [|done]. unfold project_ids.
  rewrite updateListeners_collection by apply (wf_assigned _ _ _ Hwf).
  apply find_Some in Hf as (_ & Hp & _).
  unfold collection, assigned, content; simpl.
  by apply deref_ids_set_status.
Qed.

Lemma reachable_distinct_NoDup st :
  reachable_distinct st → NoDup (project_ids st).
Proof.
  induction 1 as [|l st H IH|rnd t d n st H IH Hnew|i s st H IH].
  - unfold project_ids, collection, content, init; simpl.
    rewrite lookup_singleton_eq. constructor.
  - done.
  - rewrite addProject_project_ids
      by by apply reachable_wf, reachable_distinct_reachable.
    apply NoDup_app. split; [done|]. split; [|apply NoDup_singleton].
    intros x Hx ->%list_elem_of_singleton. done.
  - rewrite moveProject_project_ids
      by by apply reachable_wf, reachable_distinct_reachable.
    done.
Qed.

(** A round of [updateListeners] on a well-formed store. *)
Lemma updateListeners_copies st :
  wf st →
  content (updateListeners st) = content st ∧
  notified_with_copies st (updateListeners st).
Proof.
  intros Hwf.
  destruct (updateListeners_spec st (proj1 Hwf))
    as (Ho & Hl & Hpr & Ha & Hc & new & Hcalls & Hnew & Hall).
  split; [done|]. exists new. rewrite Hl. split; [done|]. split; [done|].
  eapply Forall_impl; [exact Hall|]. intros c (Hs & Hnone & Hsome).
  rewrite updateListeners_collection, Hpr, Hc by apply Hwf.
  repeat split; try done.
  intros E. destruct Hwf as ([l Hl'] & _). congruence.
Qed.

End heap.

(** C3.  When the first project with id [i] has a status [s0] and
    [s ≠ s0], [moveProject i s] assigns [s] to that project object (the
    array and every other object are left alone), after which the status
    found for [i] is [s]; it then calls every registered listener once,
    in registration order, each on a snapshot equal to the new collection,
    in which a project with id [i] has status [s]. *)
Theorem C3_moveProject_updates_and_notifies :
  ∀ (st : State) (i : jsstring) (s s0 : ProjectStatus),
    reachable st → current_status st i = Some s0 → s ≠ s0 →
    current_status (moveProject i s st) i = Some s ∧
    (∃ o p, find (objects st) i (content st) = Some (o, p) ∧
            objects (moveProject i s st) =
              <[ o := set_status s p ]> (objects st) ∧
            content (moveProject i s st) = content st) ∧
    ∃ new, calls (moveProject i s st) = calls st ++ new ∧
           callee <$> new = listeners st ∧
           Forall (λ c, seen c = collection (moveProject i s st) ∧
                        ∃ p, p ∈ seen c ∧ id p = i ∧ status p = s) new.
Proof.
  intros st i s s0 Hr Hcur Hne. apply reachable_wf in Hr as Hwf.
  unfold current_status in Hcur.
  destruct (find (objects st) i (content st)) as [[o p]|] eqn:Hf;
    [|done]. injection Hcur as Hs0. simpl in Hs0.
  rewrite (moveProject_assigned i s st o p) by congruence.
  set (st1 := assigned o (set_status s p) st).
  assert (Hwf1 : wf st1) by by apply wf_assigned.
  destruct (updateListeners_spec st1 (proj1 Hwf1))
    as (Ho & Hl & Hpr & Ha & Hc & new & Hcalls & Hnew & Hall).
  pose proof (find_Some _ _ _ _ _ Hf) as (Hin & Hp & Hid).
  split; [|split].
  - unfold current_status. rewrite Ho, Hc.
    change (objects st1) with (<[ o := set_status s p ]> (objects st)).
    change (content st1) with (content st).
    by rewrite (find_set_status _ _ _ _ _ s Hf).
  - exists o, p. by rewrite Ho, Hc.
  - exists new. split; [done|]. split; [done|].
    eapply Forall_impl; [exact Hall|]. intros c (Hs & _ & _).
    rewrite updateListeners_collection by apply Hwf1.
    split; [done|]. exists (set_status s p). rewrite Hs.
    split; [|done]. eapply elem_of_deref; [exact Hin|].
    apply lookup_insert_eq.
Qed.

Lemma C3_witness :
  reachable board ∧
  current_status board (lit "0.5") = Some Active ∧
  Finished ≠ Active ∧
  current_status (moveProject (lit "0.5") Finished board) (lit "0.5") =
    Some Finished.
Proof.
  assert (Hr : reachable board) by (unfold board; repeat constructor).
  assert (Hc : current_status board (lit "0.5") = Some Active)
    by (vm_compute; reflexivity).
  assert (Hne : Finished ≠ Active) by discriminate.
  split; [exact Hr|]. split; [exact Hc|]. split; [exact Hne|].
  exact (proj1 (C3_moveProject_updates_and_notifies
                  board (lit "0.5") Finished Active Hr Hc Hne)).
Defined.

(** C4.  When the first project with id [i] already has status [s],
    [moveProject i s] returns the store as it was: same collection, no
    listener call; calling it again changes nothing either. *)
Theorem C4_moveProject_same_status_is_noop :
  ∀ (st : State) (i : jsstring) (s : ProjectStatus),
    current_status st i = Some s →
    moveProject i s st = st ∧
    collection (moveProject i s st) = collection st ∧
    calls (moveProject i s st) = calls st ∧
    moveProject i s (moveProject i s st) = moveProject i s st.
Proof.
  intros st i s Hcur. unfold current_status in Hcur.
  destruct (find (objects st) i (content st)) as [[o p]|] eqn:Hf;
    [|done]. injection Hcur as Hs. simpl in Hs.
  assert (E : moveProject i s st = st) by by eapply moveProject_same.
  by rewrite !E.
Qed.

Lemma C4_witness :
  current_status board (lit "0.25") = Some Active ∧
  moveProject (lit "0.25") Active board = board.
Proof.
  assert (Hc : current_status board (lit "0.25") = Some Active)
    by (vm_compute; reflexivity).
  split; [exact Hc|].
  exact (proj1 (C4_moveProject_same_status_is_noop
                  board (lit "0.25") Active Hc)).
Defined.

(** C5.  When no project of the store has id [i], [moveProject i s]
    returns the store as it was: same collection, no listener call.  The
    function is total: there is no error to raise. *)
Theorem C5_moveProject_unknown_id_is_noop :
  ∀ (st : State) (i : jsstring) (s : ProjectStatus),
    i ∉ project_ids st →
    moveProject i s st = st ∧
    collection (moveProject i s st) = collection st ∧
    calls (moveProject i s st) = calls st.
Proof.
  intros st i s Hi.
  assert (E : moveProject i s st = st)
    by by apply moveProject_absent, find_None.
  by rewrite !E.
Qed.

Lemma C5_witness :
  (lit "0.75" ∉ project_ids board) ∧
  moveProject (lit "0.75") Finished board = board.
Proof.
  assert (Hi : lit "0.75" ∉ project_ids board)
    by (refine (bool_decide_unpack _ _); vm_compute; exact I).
  split; [exact Hi|].
  exact (proj1 (C5_moveProject_unknown_id_is_noop
                  board (lit "0.75") Finished Hi)).
Defined.

(** C6.  For all arguments, [addProject] returns a store whose collection
    is the old one followed by one project with the given fields, status
    [Active] and the id drawn at this call; the objects stored before are
    unchanged; every registered listener is then called once, in
    registration order, on an array other than the store's own whose
    content is the new collection. *)
Theorem C6_addProject_appends_and_notifies :
  ∀ (st : State) (rnd t d : jsstring) (n : number),
    reachable st →
    collection (addProject rnd t d n st) =
      collection st ++ [{| id := rnd; title := t; description := d;
                           people := n; status := Active |}] ∧
    (∀ o p, objects st !! o = Some p →
            objects (addProject rnd t d n st) !! o = Some p) ∧
    ∃ new, calls (addProject rnd t d n st) = calls st ++ new ∧
           callee <$> new = listeners st ∧
           Forall (λ c, seen c = collection (addProject rnd t d n st) ∧
                        items c ≠ projects (addProject rnd t d n st)) new.
Proof.
  intros st rnd t d n Hr. apply reachable_wf in Hr as Hwf.
  split; [by apply addProject_collection|].
  rewrite addProject_pushed.
  set (st1 := pushed _ st).
  assert (Hwf1 : wf st1) by by apply wf_pushed.
  destruct (updateListeners_spec st1 (proj1 Hwf1))
    as (Ho & Hl & Hpr & Ha & Hc & new & Hcalls & Hnew & Hall).
  split.
  - intros o p Hp. rewrite Ho. unfold st1, pushed; simpl.
    rewrite lookup_insert_ne; [done|].
    intros <-. by rewrite fresh_object_unallocated in Hp.
  - exists new. split; [done|]. split; [done|].
    eapply Forall_impl; [exact Hall|]. intros c (Hs & Hnone & _).
    rewrite updateListeners_collection by apply Hwf1.
    split; [done|]. rewrite Hpr. intros E.
    destruct Hwf1 as ([l Hl'] & _). congruence.
Qed.

Lemma C6_witness :
  reachable board ∧
  collection (addProject (lit "0.125") (lit "Third plan")
                (lit "Ship the release") 4%float board) =
  collection board ++
    [{| id := lit "0.125"; title := lit "Third plan";
        description := lit "Ship the release"; people := 4%float;
        status := Active |}].
Proof.
  assert (Hr : reachable board) by (unfold board; repeat constructor).
  split; [exact Hr|].
  exact (proj1 (C6_addProject_appends_and_notifies
                  board (lit "0.125") (lit "Third plan")
                  (lit "Ship the release") 4%float Hr)).
Defined.

(** C7, refuted as stated: two calls of [addProject] that draw the same
    id leave a reachable store in which that id occurs twice. *)
Lemma C7_same_id_drawn_twice :
  reachable twins ∧
  project_ids twins = [lit "0.5"; lit "0.5"] ∧
  ¬ NoDup (project_ids twins).
Proof.
  assert (E : project_ids twins = [lit "0.5"; lit "0.5"])
    by (vm_compute; reflexivity).
  split; [unfold twins; repeat constructor|]. split; [done|].
  rewrite E. intros [Hnotin _]%NoDup_cons. apply Hnotin. left.
Qed.

(** C7, amended.  In every store reached through [addListener],
    [moveProject] and calls of [addProject] that each draw an id not yet
    in the store, every id occurs at most once.  From such a store
    [addListener] and [moveProject] always keep the ids pairwise distinct,
    and [addProject] does exactly when the id it draws is not in the
    store. *)
Theorem C7_ids_distinct_when_draws_are_new :
  ∀ st : State,
    reachable_distinct st →
    NoDup (project_ids st) ∧
    (∀ l, NoDup (project_ids (addListener l st))) ∧
    (∀ i s, NoDup (project_ids (moveProject i s st))) ∧
    (∀ rnd t d n,
       NoDup (project_ids (addProject rnd t d n st)) ↔
       rnd ∉ project_ids st).
Proof.
  intros st Hr. pose proof (reachable_distinct_NoDup st Hr) as Hnd.
  assert (Hwf : wf st) by by apply reachable_wf, reachable_distinct_reachable.
  split; [done|]. split; [done|]. split.
  - intros i s. by rewrite moveProject_project_ids.
  - intros rnd t d n. rewrite addProject_project_ids by done.
    rewrite NoDup_app. split.
    + intros (_ & Hdisj & _) Hin. apply (Hdisj rnd Hin). left.
    + intros Hnew. split; [done|]. split; [|apply NoDup_singleton].
      by intros x Hx ->%list_elem_of_singleton.
Qed.

Lemma C7_witness :
  reachable_distinct board ∧ NoDup (project_ids board).
Proof.
  assert (Hr : reachable_distinct board).
  { unfold board.
    repeat (first
      [ apply distinct_addProject
      | apply distinct_addListener
      | apply distinct_init
      | refine (bool_decide_unpack _ _); vm_compute; exact I ]). }
  split; [exact Hr|].
  exact (proj1 (C7_ids_distinct_when_draws_are_new board Hr)).
Defined.

(** C8.  [addListener] appends to the list of listeners, and every
    operation that notifies calls the listeners in that order.  Each call
    receives an array allocated for it by [slice], whose content is the
    whole current collection; whatever the callbacks do to the arrays
    they receive ([run] is arbitrary), the store's own array holds what
    the operation itself put there. *)
Theorem C8_listeners_receive_copies_in_order :
  ∀ st : State,
    reachable st →
    (∀ l, listeners (addListener l st) = listeners st ++ [l]) ∧
    (∀ rnd t d n,
       content (addProject rnd t d n st) =
         content st ++ [fresh (dom (objects st))] ∧
       notified_with_copies st (addProject rnd t d n st)) ∧
    (∀ i s,
       content (moveProject i s st) = content st ∧
       (moveProject i s st = st ∨
        notified_with_copies st (moveProject i s st))).
Proof.
  intros st Hr. apply reachable_wf in Hr as Hwf.
  split; [done|]. split.
  - intros rnd t d n. rewrite addProject_pushed.
    set (st1 := pushed _ st).
    destruct (updateListeners_copies st1 (wf_pushed _ _ Hwf))
      as (Hc & new & Hcalls & Hnew & Hall).
    split; [rewrite Hc; by apply pushed_content, Hwf|].
    exists new. split; [done|]. split; [done|].
    eapply Forall_impl; [exact Hall|].
    intros c (Hs & Hne & Hnone & Hsome). repeat split; try done.
    unfold st1, pushed in Hnone; simpl in Hnone.
    by apply lookup_alter_None in Hnone.
  - intros i s. unfold moveProject.
    destruct (find _ _ _) as [[o p]|]; [|by split; [|left]].
    case_decide; [|by split; [|left]].
    destruct (updateListeners_copies _ (wf_assigned o (set_status s p) _ Hwf))
      as (Hc & Hn).
    split; [done|]. by right.
Qed.

Lemma C8_witness :
  reachable board ∧
  notified_with_copies board
    (addProject (lit "0.125") (lit "Third plan") (lit "Ship the release")
       4%float board).
Proof.
  assert (Hr : reachable board) by (unfold board; repeat constructor).
  split; [exact Hr|].
  exact (proj2 (proj1 (proj2 (C8_listeners_receive_copies_in_order board Hr))
                  (lit "0.125") (lit "Third plan")
                  (lit "Ship the release") 4%float)).
Defined.

(** The arrays of the two callbacks after that round: the first holds
    the three projects twice, the second holds them in reverse order, and
    the store's own array holds them once, in order. *)
Example board_arrays_after_add :
  let st := addProject (lit "0.125") (lit "Third plan")
              (lit "Ship the release") 4%float board in
  content st = [1; 2; 3]%positive ∧
  fmap (λ c, arrays st !! items c) (drop 4 (calls st)) =
    [Some [1; 2; 3; 1; 2; 3]%positive; Some [3; 2; 1]%positive].
Proof. vm_compute. split; reflexivity. Qed.

End StoreFacts.

(** ** The form *)

Module FormFacts.
Import JS Validator Store Form.

(** A rejected submission: one more alert, showing [msg]; the store and
    the input fields are as before. *)
Definition rejected (msg : jsstring) (w w' : World) : Prop :=
  alerts w' = alerts w ++ [msg] ∧
  prjState w' = prjState w ∧
  form w' = form w.

(** An empty board and two fillings of the form. *)
Definition fresh_page (f : ProjectForm) : World :=
  {| form := f; alerts := []; prjState := init |}.

Definition good_form : ProjectForm :=
  {| titlEl := lit "My Project"; descriptionEl := lit "Build the thing";
     peopleEl := lit "3" |}.

Definition short_title_form : ProjectForm :=
  {| titlEl := lit "abc"; descriptionEl := lit "short";
     peopleEl := lit "9" |}.

(** C9.  [getInputValues] looks at the title rule first, then at the
    description rule, then at the people rule.  The first rule that is
    invalid decides the outcome: its message is shown by one [alert], the
    later rules have no influence, the store and the fields are left as
    they were.  When the three rules are valid there is no alert, the
    store receives [addProject] with the title, the description and the
    people field converted to a number, and the three fields are set to
    the empty string. *)
Theorem C9_submit_validates_in_order :
  ∀ (Number_toString : number → jsstring) (ToNumber : jsstring → number)
    (rnd : jsstring) (w : World),
    let vt := validatedInput Number_toString
                (validateTitle (titlEl (form w))) in
    let vd := validatedInput Number_toString
                (validateDesc (descriptionEl (form w))) in
    let vp := validatedInput Number_toString
                (validatePeole ToNumber (peopleEl (form w))) in
    let w' := getInputValues Number_toString ToNumber rnd w in
    (isValid vt = false → rejected (message vt) w w') ∧
    (isValid vt = true → isValid vd = false →
     rejected (message vd) w w') ∧
    (isValid vt = true → isValid vd = true → isValid vp = false →
     rejected (message vp) w w') ∧
    (isValid vt = true → isValid vd = true → isValid vp = true →
     w' = {| form := {| titlEl := []; descriptionEl := [];
                        peopleEl := [] |};
             alerts := alerts w;
             prjState :=
               addProject rnd (titlEl (form w)) (descriptionEl (form w))
                 (ToNumber (peopleEl (form w))) (prjState w) |}).
Proof.
  intros nts tn rnd w vt vd vp w'.
  unfold w', getInputValues, validateInputs. fold vt vd vp.
  destruct (isValid vt), (isValid vd), (isValid vp); simpl;
    repeat split; intros; try discriminate; reflexivity.
Qed.

Lemma C9_witness :
  getInputValues Runtime.Number_toString Runtime.ToNumber (lit "0.5")
    (fresh_page good_form) =
  {| form := {| titlEl := []; descriptionEl := []; peopleEl := [] |};
     alerts := [];
     prjState := addProject (lit "0.5") (lit "My Project")
                   (lit "Build the thing") 3%float init |}.
Proof.
  refine (proj2 (proj2 (proj2 (C9_submit_validates_in_order
            Runtime.Number_toString Runtime.ToNumber (lit "0.5")
            (fresh_page good_form)))) _ _ _);
    vm_compute; reflexivity.
Defined.

(** A short title is reported and nothing else happens, although the
    description and the people count are invalid as well. *)
Example short_title_rejected :
  getInputValues Runtime.Number_toString Runtime.ToNumber (lit "0.5")
    (fresh_page short_title_form) =
  {| form := short_title_form;
     alerts := [lit "Title field most not be less than 5 characters"];
     prjState := init |}.
Proof. vm_compute. reflexivity. Qed.

End FormFacts.

(** * Further properties *)

(** ** More on the validator *)

Module ValidatorLaws.
Import JS Validator ValidatorFacts.

Section with_runtime.

Variable Number_toString : number → jsstring.

Local Abbreviation validatedInput :=
  (Validator.validatedInput Number_toString).

(** Every message a block can assign contains literal text. *)
Lemma entered_message_nonempty v b :
  b ∈ entered Number_toString v → b.2 ≠ [].
Proof.
  unfold entered.
  destruct (truthy (value v)), (maxLength v), (minLength v),
    (max v), (min v), (value v); simpl;
    rewrite ?elem_of_cons, ?elem_of_nil; intros Hb;
    repeat (destruct Hb as [->|Hb]); try done; simpl;
    unfold msg_required, msg_maxLength, msg_minLength, msg_max, msg_min;
    intros [_ H]%app_eq_nil; vm_compute in H; discriminate H.
Qed.

Lemma invalid_has_entered v :
  isValid (validatedInput v) = false →
  ∃ bs b, entered Number_toString v = bs ++ [b] ∧
          message (validatedInput v) = b.2.
Proof.
  intros E. rewrite validatedInput_blocks in E |- *.
  destruct (entered Number_toString v) as [|b bs _] using rev_ind.
  - discriminate E.
  - exists bs, b. split; [done|]. by apply run_blocks_message_invalid.
Qed.

End with_runtime.

(** X1.  The message is empty exactly when the rule is valid: a valid
    rule returns [''], an invalid rule returns a text that is not
    empty. *)
Theorem X1_message_empty_iff_valid :
  ∀ (Number_toString : number → jsstring) (v : validate),
    message (validatedInput Number_toString v) = [] ↔
    isValid (validatedInput Number_toString v) = true.
Proof.
  intros nts v. split.
  - intros Hm. destruct (isValid _) eqn:E; [done|].
    destruct (invalid_has_entered nts v E) as (bs & b & Hbs & Hb).
    exfalso. apply (entered_message_nonempty nts v b).
    + rewrite Hbs, elem_of_app, list_elem_of_singleton. by right.
    + by rewrite Hb in Hm.
  - intros E. rewrite validatedInput_message. by rewrite E.
Qed.

(** X2.  An invalid rule carries the message of the last block that was
    entered for it, whichever block failed.  So a number with both [max]
    and [min] set always gets the [min] message when it is invalid, and a
    text with both [maxLength] and [minLength] set always gets the
    [minLength] message. *)
Theorem X2_invalid_message_is_last_entered :
  ∀ (Number_toString : number → jsstring) (v : validate),
    let r := validatedInput Number_toString v in
    (isValid r = false →
     snd <$> last (entered Number_toString v) = Some (message r)) ∧
    (∀ x n, isValid r = false → value v = Num x → min v = Some n →
            message r = msg_min Number_toString v n) ∧
    (∀ s n, isValid r = false → value v = Str s → max v = None →
            min v = None → minLength v = Some n →
            message r = msg_minLength Number_toString v n).
Proof.
  intros nts v r. split; [|split].
  - intros E. destruct (invalid_has_entered nts v E) as (bs & b & Hbs & Hb).
    unfold r. by rewrite Hbs, last_snoc, Hb.
  - intros x n E Hv Hmin.
    destruct (invalid_has_entered nts v E) as (bs & b & Hbs & Hb).
    unfold r. rewrite Hb. clear Hb E.
    unfold entered in Hbs. rewrite Hv, Hmin in Hbs.
    rewrite !app_assoc in Hbs. by apply app_inj_tail in Hbs as [_ <-].
  - intros s n E Hv Hmax Hmin Hml.
    destruct (invalid_has_entered nts v E) as (bs & b & Hbs & Hb).
    unfold r. rewrite Hb. clear Hb E.
    unfold entered in Hbs. rewrite Hv, Hmax, Hmin, Hml in Hbs.
    rewrite !app_nil_r, !app_assoc in Hbs.
    by apply app_inj_tail in Hbs as [_ <-].
Qed.

Lemma X2_witness :
  message (validatedInput Runtime.Number_toString people6) =
  msg_min Runtime.Number_toString people6 1%float.
Proof.
  refine (proj1 (proj2 (X2_invalid_message_is_last_entered
            Runtime.Number_toString people6)) 6%float 1%float _ _ _);
    vm_compute; reflexivity.
Defined.

(** X3.  Constraints of the other type have no effect: the result for a
    numeric value does not depend on [minLength] and [maxLength], and the
    result for a text value does not depend on [max] and [min]. *)
Theorem X3_constraints_of_other_type_ignored :
  ∀ (Number_toString : number → jsstring) (q : option bool)
    (fld : jsstring) (a b c d a' b' : option number),
    (∀ x : number,
       validatedInput Number_toString
         {| value := Num x; required := q; minLength := a;
            maxLength := b; max := c; min := d; field := fld |} =
       validatedInput Number_toString
         {| value := Num x; required := q; minLength := a';
            maxLength := b'; max := c; min := d; field := fld |}) ∧
    (∀ s : jsstring,
       validatedInput Number_toString
         {| value := Str s; required := q; minLength := c;
            maxLength := d; max := a; min := b; field := fld |} =
       validatedInput Number_toString
         {| value := Str s; required := q; minLength := c;
            maxLength := d; max := a'; min := b'; field := fld |}).
Proof.
  intros nts q fld a b c d a' b'. split; intros ?;
    unfold validatedInput, check_maxLength, check_minLength,
      check_max, check_min; simpl;
    by destruct a, b, a', b'.
Qed.

(** A number that is falsy (a zero or NaN) is not [>= 1]. *)
Lemma falsy_not_ge_1 (x : number) :
  truthy (Num x) = false → ge x 1%float = false.
Proof.
  unfold truthy, ge. rewrite !FloatAxioms.eqb_spec, FloatAxioms.leb_spec.
  change (Prim2SF 0%float) with (S754_zero false).
  change (Prim2SF 1%float)
    with (S754_finite false 4503599627370496 (-52)).
  destruct (Prim2SF x) as [s|s| |s m e]; try done.
  - by destruct s.
  - unfold SFeqb, SFcompare.
    rewrite Z.compare_refl, Pos.compare_refl. by destruct s.
Qed.

End ValidatorLaws.

(** ** More on the form *)

Module FormLaws.
Import JS Validator Store Form ValidatorFacts StoreFacts FormFacts.

(** What validity of the title or description rule says about the text:
    it is not blank and has at least [n] code units. *)
Lemma text_rule_valid (nts : number → jsstring) (v : validate)
    (s : jsstring) (n : number) :
  value v = Str s → minLength v = Some n → maxLength v = None →
  isValid (validatedInput nts v) = true →
  ge (length_number s) n = true ∧ (s = [] ∨ trim s ≠ []).
Proof.
  intros Hv Hmin Hmax.
  unfold validatedInput, check_required, check_maxLength,
    check_minLength, check_max, check_min.
  rewrite Hv, Hmin, Hmax. simpl.
  destruct (length s =? 0) eqn:E0; simpl.
  - destruct (max v), (min v); simpl; intros ->; split; try done;
      left; destruct s; done.
  - destruct (length (trim s) =? 0) eqn:E1; simpl;
      destruct (max v), (min v); simpl; try done; intros ->;
      (split; [done|]); right; intros Ht; by rewrite Ht in E1.
Qed.

(** X4.  A people field that converts to a falsy number (["" ] gives 0;
    text that is not a number gives NaN) is rejected, and the message is
    the one of the [min] check. *)
Theorem X4_falsy_people_rejected :
  ∀ (Number_toString : number → jsstring) (ToNumber : jsstring → number)
    (enteredPeople : jsstring),
    truthy (Num (ToNumber enteredPeople)) = false →
    validatedInput Number_toString (validatePeole ToNumber enteredPeople) =
    {| isValid := false;
       message := lit "People field most not be less than " ++
                  Number_toString 1%float ++ lit " numbers" |}.
Proof.
  intros nts tn s Hf.
  pose proof (ValidatorLaws.falsy_not_ge_1 _ Hf) as Hge.
  unfold validatedInput, check_required, check_maxLength, check_minLength,
    check_max, check_min, validatePeole.
  cbn [value max min maxLength minLength field].
  rewrite Hf. unfold check, msg_min.
  cbn [isValid message field]. rewrite Hge, andb_false_r.
  reflexivity.
Qed.

Lemma X4_witness :
  truthy (Num (Runtime.ToNumber (lit ""))) = false ∧
  message (validatedInput Runtime.Number_toString
             (validatePeole Runtime.ToNumber (lit ""))) =
  lit "People field most not be less than 1 numbers".
Proof.
  assert (H : truthy (Num (Runtime.ToNumber (lit ""))) = false)
    by (vm_compute; reflexivity).
  split; [exact H|].
  exact (f_equal message
           (X4_falsy_people_rejected Runtime.Number_toString
              Runtime.ToNumber (lit "") H)).
Defined.

(** What validity of the people rule says about the number. *)
Lemma people_rule_valid (nts : number → jsstring) (tn : jsstring → number)
    (s : jsstring) :
  isValid (validatedInput nts (validatePeole tn s)) = true →
  le (tn s) 5%float = true ∧ ge (tn s) 1%float = true.
Proof.
  unfold validatedInput, check_required, check_maxLength, check_minLength,
    check_max, check_min, validatePeole.
  cbn [value max min maxLength minLength field].
  unfold check. cbn [isValid message].
  destruct (truthy _); [destruct (negb _)|];
    destruct (le _ _), (ge _ _); done.
Qed.

(** The four ways through [getInputValues]. *)
Lemma getInputValues_cases (nts : number → jsstring)
    (tn : jsstring → number) (rnd : jsstring) (w : World) :
  let vt := validatedInput nts (validateTitle (titlEl (form w))) in
  let vd := validatedInput nts (validateDesc (descriptionEl (form w))) in
  let vp := validatedInput nts (validatePeole tn (peopleEl (form w))) in
  let w' := getInputValues nts tn rnd w in
  (isValid vt = false ∧ rejected (message vt) w w') ∨
  (isValid vt = true ∧ isValid vd = false ∧ rejected (message vd) w w') ∨
  (isValid vt = true ∧ isValid vd = true ∧ isValid vp = false ∧
   rejected (message vp) w w') ∨
  (isValid vt = true ∧ isValid vd = true ∧ isValid vp = true ∧
   w' = clearInput
          {| form := form w; alerts := alerts w;
             prjState :=
               addProject rnd (titlEl (form w)) (descriptionEl (form w))
                 (tn (peopleEl (form w))) (prjState w) |}).
Proof.
  intros vt vd vp w'. unfold w', getInputValues, validateInputs.
  fold vt vd vp.
  destruct (isValid vt); [|left; by repeat split].
  destruct (isValid vd); [|right; left; by repeat split].
  destruct (isValid vp); [|right; right; left; by repeat split].
  right; right; right. by repeat split.
Qed.

(** The outcome of a submission: either one alert and nothing else, or
    no alert and one more project, which passed the three rules. *)
Definition submission_outcome (tn : jsstring → number) (rnd : jsstring)
    (w w' : World) : Prop :=
  (∃ msg, rejected msg w w') ∨
  (∃ p, collection (prjState w') = collection (prjState w) ++ [p] ∧
        alerts w' = alerts w ∧
        id p = rnd ∧ status p = Active ∧
        title p = titlEl (form w) ∧
        description p = descriptionEl (form w) ∧
        people p = tn (peopleEl (form w)) ∧
        trim (title p) ≠ [] ∧
        ge (length_number (title p)) 5%float = true ∧
        trim (description p) ≠ [] ∧
        ge (length_number (description p)) 10%float = true ∧
        le (people p) 5%float = true ∧
        ge (people p) 1%float = true).

(** X5.  The form never puts an unvalidated project into the store: a
    submission either shows one alert and leaves store and fields alone,
    or shows no alert and appends one [Active] project whose title and
    description are the entered texts, not blank and at least 5 and 10
    code units long, and whose people count [n] satisfies [n <= 5] and
    [n >= 1]. *)
Theorem X5_form_adds_only_validated_projects :
  ∀ (Number_toString : number → jsstring) (ToNumber : jsstring → number)
    (rnd : jsstring) (w : World),
    reachable (prjState w) →
    submission_outcome ToNumber rnd w
      (getInputValues Number_toString ToNumber rnd w).
Proof.
  intros nts tn rnd w Hr.
  destruct (getInputValues_cases nts tn rnd w)
    as [(_ & H)|[(_ & _ & H)|[(_ & _ & _ & H)|(Et & Ed & Ep & H)]]];
    [left; by eexists..|].
  right. rewrite H. simpl.
  eexists. split; [by apply addProject_collection, reachable_wf|].
  simpl.
  destruct (text_rule_valid nts (validateTitle (titlEl (form w)))
              (titlEl (form w)) 5%float eq_refl eq_refl eq_refl Et)
    as [Ht1 Ht2].
  destruct (text_rule_valid nts (validateDesc (descriptionEl (form w)))
              (descriptionEl (form w)) 10%float eq_refl eq_refl eq_refl Ed)
    as [Hd1 Hd2].
  destruct (people_rule_valid nts tn _ Ep) as [Hp1 Hp2].
  repeat split; try done.
  - destruct Ht2 as [E|]; [|done]. rewrite E in Ht1. discriminate Ht1.
  - destruct Hd2 as [E|]; [|done]. rewrite E in Hd1. discriminate Hd1.
Qed.

Lemma X5_witness :
  reachable (prjState (fresh_page good_form)) ∧
  submission_outcome Runtime.ToNumber (lit "0.5") (fresh_page good_form)
    (getInputValues Runtime.Number_toString Runtime.ToNumber (lit "0.5")
       (fresh_page good_form)).
Proof.
  assert (Hr : reachable (prjState (fresh_page good_form)))
    by apply reachable_init.
  split; [exact Hr|].
  exact (X5_form_adds_only_validated_projects Runtime.Number_toString
           Runtime.ToNumber (lit "0.5") (fresh_page good_form) Hr).
Defined.

(** X6.  Submitting twice in a row cannot add a project twice: after a
    submission that showed no alert the fields are empty, and the next
    submission is rejected with the [minLength] message of the title
    (an empty title never gets the "required" message). *)
Theorem X6_second_submission_is_rejected :
  ∀ (Number_toString : number → jsstring) (ToNumber : jsstring → number)
    (rnd rnd' : jsstring) (w : World),
    alerts (getInputValues Number_toString ToNumber rnd w) = alerts w →
    rejected
      (lit "Title field most not be less than " ++
       Number_toString 5%float ++ lit " characters")
      (getInputValues Number_toString ToNumber rnd w)
      (getInputValues Number_toString ToNumber rnd'
         (getInputValues Number_toString ToNumber rnd w)).
Proof.
  intros nts tn rnd rnd' w Hquiet.
  assert (Hloud : ∀ msg,
    ¬ rejected msg w (getInputValues nts tn rnd w)).
  { intros msg (Ha & _). rewrite Hquiet in Ha.
    apply (f_equal length) in Ha. rewrite length_app in Ha.
    simpl in Ha. lia. }
  destruct (getInputValues_cases nts tn rnd w)
    as [(_ & H)|[(_ & _ & H)|[(_ & _ & _ & H)|(_ & _ & _ & H)]]];
    [by apply Hloud in H..|].
  rewrite H. repeat split.
Qed.

Lemma X6_witness :
  alerts (getInputValues Runtime.Number_toString Runtime.ToNumber
            (lit "0.5") (fresh_page good_form)) =
    alerts (fresh_page good_form) ∧
  collection
    (prjState
       (getInputValues Runtime.Number_toString Runtime.ToNumber
          (lit "0.25")
          (getInputValues Runtime.Number_toString Runtime.ToNumber
             (lit "0.5") (fresh_page good_form)))) =
  collection
    (prjState
       (getInputValues Runtime.Number_toString Runtime.ToNumber
          (lit "0.5") (fresh_page good_form))).
Proof.
  assert (H : alerts (getInputValues Runtime.Number_toString
                        Runtime.ToNumber (lit "0.5")
                        (fresh_page good_form)) =
              alerts (fresh_page good_form))
    by (vm_compute; reflexivity).
  split; [exact H|].
  exact (f_equal collection
           (proj1 (proj2 (X6_second_submission_is_rejected
              Runtime.Number_toString Runtime.ToNumber
              (lit "0.5") (lit "0.25") (fresh_page good_form) H)))).
Defined.

End FormLaws.

(** ** More on the store *)

Module StoreLaws.
Import JS Store StoreFacts.

(** [moveProject] on a plain list of projects: the first project with
    the id gets the status. *)
Fixpoint move_first (i : jsstring) (s : ProjectStatus) (l : list Project)
  : list Project :=
  match l with
  | [] => []
  | p :: l' =>
      if decide (id p = i) then set_status s p :: l'
      else p :: move_first i s l'
  end.

(** A project without its status. *)
Definition erase (p : Project) : Project := set_status Active p.

(** [st'] is [st] after any number of calls of the public methods. *)
Inductive evolves (st : State) : State → Prop :=
| evolves_refl : evolves st st
| evolves_addListener l st' :
    evolves st st' → evolves st (addListener l st')
| evolves_addProject rnd t d n st' :
    evolves st st' → evolves st (addProject rnd t d n st')
| evolves_moveProject i s st' :
    evolves st st' → evolves st (moveProject i s st').

Section laws.

Implicit Types (st : State) (l : list loc) (ps : list Project).
Implicit Types (o a : loc) (p : Project) (s : ProjectStatus).
Implicit Types (objs : gmap loc Project) (i : jsstring).

Lemma set_status_same p : set_status (status p) p = p.
Proof. by destruct p. Qed.

Lemma set_status_twice s s' p :
  set_status s (set_status s' p) = set_status s p.
Proof. reflexivity. Qed.

(** *** [move_first] *)

Lemma move_first_absent i s ps :
  i ∉ id <$> ps → move_first i s ps = ps.
Proof.
  induction ps as [|p ps IH]; [done|]. rewrite fmap_cons, not_elem_of_cons.
  intros [Hne Hps]. simpl. rewrite decide_False by done. by rewrite IH.
Qed.

Lemma move_first_erase i s ps :
  erase <$> move_first i s ps = erase <$> ps.
Proof.
  induction ps as [|p ps IH]; [done|]. simpl. case_decide.
  - by rewrite !fmap_cons.
  - by rewrite !fmap_cons, IH.
Qed.

Lemma move_first_length i s ps :
  length (move_first i s ps) = length ps.
Proof.
  induction ps as [|p ps IH]; [done|]. simpl. case_decide; simpl; auto.
Qed.

Lemma move_first_idem i s ps :
  move_first i s (move_first i s ps) = move_first i s ps.
Proof.
  induction ps as [|p ps IH]; [done|]. simpl. case_decide as Hi.
  - simpl. by rewrite decide_True.
  - simpl. rewrite decide_False by done. by rewrite IH.
Qed.

(** The status of the first project with the id. *)
Fixpoint first_status (i : jsstring) (ps : list Project)
  : option ProjectStatus :=
  match ps with
  | [] => None
  | p :: ps' => if decide (id p = i) then Some (status p)
                else first_status i ps'
  end.

Lemma move_first_back i s s0 ps :
  first_status i ps = Some s0 →
  move_first i s0 (move_first i s ps) = ps.
Proof.
  induction ps as [|p ps IH]; [done|]. simpl. case_decide as Hi.
  - intros [= <-]. simpl. rewrite decide_True by done.
    by rewrite set_status_twice, set_status_same.
  - intros H. simpl. rewrite decide_False by done. by rewrite IH.
Qed.

(** *** The heap against the list *)

Lemma find_first_status objs i l :
  (λ op, status op.2) <$> find objs i l = first_status i (deref objs l).
Proof.
  induction l as [|o l IH]; [done|]. rewrite deref_cons. simpl.
  destruct (objs !! o) as [q|]; [|done]. simpl. by case_decide.
Qed.

Lemma find_None_ids objs i l :
  find objs i l = None → i ∉ id <$> deref objs l.
Proof.
  intros Hf Hin. apply find_is_Some in Hin as [? ?]. congruence.
Qed.

Lemma deref_assigned objs i l o p s :
  NoDup l → find objs i l = Some (o, p) →
  deref (<[ o := set_status s p ]> objs) l = move_first i s (deref objs l).
Proof.
  induction l as [|o' l IH]; [done|].
  intros [Hnotin Hnd]%NoDup_cons Hf. rewrite !deref_cons.
  simpl in Hf. destruct (objs !! o') as [q|] eqn:E.
  - destruct (decide (id q = i)) as [Hi|Hi].
    + injection Hf as <- <-. rewrite lookup_insert_eq. simpl.
      rewrite decide_True by done.
      by rewrite deref_insert_notin.
    + pose proof (find_Some _ _ _ _ _ Hf) as (_ & Hp & Hid).
      rewrite lookup_insert_ne by congruence. rewrite E. simpl.
      rewrite decide_False by done. by rewrite IH.
  - pose proof (find_Some _ _ _ _ _ Hf) as (_ & Hp & _).
    rewrite lookup_insert_ne by congruence. rewrite E. by apply IH.
Qed.

(** The collection after [moveProject], in all three cases. *)
Lemma moveProject_collection i s st :
  wf st → collection (moveProject i s st) = move_first i s (collection st).
Proof.
  intros Hwf. pose proof Hwf as (Hp & Hnd & Hall). unfold moveProject.
  destruct (find _ _ _) as [[o p]|] eqn:Hf.
  - case_decide as Hs.
    + rewrite updateListeners_collection by apply (wf_assigned _ _ _ Hwf).
      unfold collection at 1. simpl.
      change (content (assigned o (set_status s p) st)) with (content st).
      by apply deref_assigned.
    + assert (status p = s) as <-
        by (destruct (decide (status p = s)); [done|by destruct Hs]).
      unfold collection.
      rewrite <- (deref_assigned _ i _ o p (status p) Hnd Hf).
      rewrite set_status_same, insert_id; [done|].
      by apply find_Some in Hf as (_ & ? & _).
  - symmetry. by apply move_first_absent, find_None_ids.
Qed.

Lemma current_status_first i st :
  current_status st i = first_status i (collection st).
Proof. apply find_first_status. Qed.

Lemma first_status_move_first i s s0 ps :
  first_status i ps = Some s0 →
  first_status i (move_first i s ps) = Some s.
Proof.
  induction ps as [|p ps IH]; [done|]. simpl. case_decide as Hi.
  - intros _. simpl. by rewrite decide_True.
  - intros H. simpl. rewrite decide_False by done. by apply IH.
Qed.

Lemma moveProject_current_same i s st :
  current_status st i = Some s → moveProject i s st = st.
Proof.
  unfold current_status.
  destruct (find _ _ _) as [[o p]|] eqn:Hf; [|done].
  intros [= Hs]. by eapply moveProject_same.
Qed.

(** *** One step of the store *)

(** An array other than the store's own is left as it is by
    [updateListeners]. *)
Lemma updateListeners_arrays st a :
  is_Some (arrays st !! projects st) → is_Some (arrays st !! a) →
  arrays (updateListeners st) !! a = arrays st !! a.
Proof.
  intros Hp Ha. rewrite updateListeners_notify_all.
  by apply (notify_all_spec (listeners st) st Hp).
Qed.

Lemma updateListeners_calls st :
  is_Some (arrays st !! projects st) →
  calls st `prefix_of` calls (updateListeners st).
Proof.
  intros Hp.
  destruct (updateListeners_spec st Hp)
    as (_ & _ & _ & _ & _ & new & -> & _).
  by exists new.
Qed.

Definition grows (st st' : State) : Prop :=
  erase <$> collection st `prefix_of` erase <$> collection st' ∧
  listeners st `prefix_of` listeners st' ∧
  calls st `prefix_of` calls st' ∧
  projects st' = projects st ∧
  ∀ a l, arrays st !! a = Some l → a ≠ projects st →
         arrays st' !! a = Some l.

Lemma grows_refl st : grows st st.
Proof. by repeat split. Qed.

Lemma grows_trans st1 st2 st3 :
  grows st1 st2 → grows st2 st3 → grows st1 st3.
Proof.
  intros (H1 & H2 & H3 & H4 & H5) (K1 & K2 & K3 & K4 & K5).
  split; [by etrans|]. split; [by etrans|]. split; [by etrans|].
  split; [congruence|]. intros a l Ha Hne. apply K5; [by apply H5|].
  congruence.
Qed.

Lemma grows_addListener x st : grows st (addListener x st).
Proof.
  split; [done|]. split; [by apply prefix_app_r|]. by repeat split.
Qed.

Lemma grows_addProject rnd t d n st :
  wf st → grows st (addProject rnd t d n st).
Proof.
  intros Hwf. rewrite addProject_pushed.
  set (st1 := pushed _ st).
  assert (Hwf1 : wf st1) by by apply wf_pushed.
  destruct (updateListeners_spec st1 (proj1 Hwf1))
    as (Ho & Hl & Hpr & Ha & Hc & _).
  split; [|split; [|split; [|split]]].
  - rewrite updateListeners_collection by apply Hwf1.
    unfold st1. rewrite pushed_collection by done.
    rewrite fmap_app. by apply prefix_app_r.
  - by rewrite Hl.
  - by apply (updateListeners_calls st1), Hwf1.
  - by rewrite Hpr.
  - intros a l Hal Hne.
    rewrite updateListeners_arrays; [|apply Hwf1|];
      unfold st1, pushed; simpl; rewrite lookup_alter_ne by done;
      by rewrite ?Hal.
Qed.

Lemma grows_moveProject i s st :
  wf st → grows st (moveProject i s st).
Proof.
  intros Hwf. split.
  { rewrite moveProject_collection by done. by rewrite move_first_erase. }
  destruct (find (objects st) i (content st)) as [[o p]|] eqn:Hf;
    [|rewrite moveProject_absent by done; by repeat split].
  destruct (decide (status p = s)) as [Hs|Hs];
    [rewrite (moveProject_same i s st o p Hf Hs); by repeat split|].
  rewrite (moveProject_assigned i s st o p Hf Hs).
  set (st1 := assigned o (set_status s p) st).
  assert (Hwf1 : wf st1) by by apply wf_assigned.
  destruct (updateListeners_spec st1 (proj1 Hwf1))
    as (Ho & Hl & Hpr & Ha & Hc & _).
  split; [by rewrite Hl|]. split; [|split].
  - by apply (updateListeners_calls st1), Hwf1.
  - by rewrite Hpr.
  - intros a l Hal Hne.
    rewrite updateListeners_arrays; [done|apply Hwf1|].
    unfold st1, assigned; simpl. by rewrite Hal.
Qed.

Lemma evolves_wf st st' : wf st → evolves st st' → wf st'.
Proof.
  intros Hwf. induction 1;
    auto using wf_addListener, wf_addProject, wf_moveProject.
Qed.

Lemma evolves_grows st st' : wf st → evolves st st' → grows st st'.
Proof.
  intros Hwf. induction 1 as [|x st' H IH|rnd t d n st' H IH|i s st' H IH].
  - apply grows_refl.
  - eapply grows_trans; [exact IH|]. apply grows_addListener.
  - eapply grows_trans; [exact IH|].
    by eapply grows_addProject, evolves_wf.
  - eapply grows_trans; [exact IH|].
    by eapply grows_moveProject, evolves_wf.
Qed.

End laws.

(** X7.  On the collection, [moveProject] is [move_first]: the first
    project with the id gets the status, every other project and the
    order stay as they are; an id that is not there changes nothing. *)
Theorem X7_moveProject_is_move_first :
  ∀ (st : State) (i : jsstring) (s : ProjectStatus),
    reachable st →
    collection (moveProject i s st) = move_first i s (collection st) ∧
    length (collection (moveProject i s st)) = length (collection st).
Proof.
  intros st i s Hr. apply reachable_wf in Hr.
  rewrite moveProject_collection by done.
  split; [done|]. apply move_first_length.
Qed.

Lemma X7_witness :
  reachable board ∧
  collection (moveProject (lit "0.5") Finished board) =
  move_first (lit "0.5") Finished (collection board).
Proof.
  assert (Hr : reachable board) by (unfold board; repeat constructor).
  split; [exact Hr|].
  exact (proj1 (X7_moveProject_is_move_first
                  board (lit "0.5") Finished Hr)).
Defined.

(** X8.  Moving a project to another status and back to the status it
    had restores the collection. *)
Theorem X8_move_there_and_back :
  ∀ (st : State) (i : jsstring) (s s0 : ProjectStatus),
    reachable st → current_status st i = Some s0 →
    collection (moveProject i s0 (moveProject i s st)) = collection st.
Proof.
  intros st i s s0 Hr Hcur. apply reachable_wf in Hr as Hwf.
  rewrite !moveProject_collection by auto using wf_moveProject.
  apply move_first_back. by rewrite <- current_status_first.
Qed.

Lemma X8_witness :
  reachable board ∧
  current_status board (lit "0.5") = Some Active ∧
  collection (moveProject (lit "0.5") Active
                (moveProject (lit "0.5") Finished board)) =
  collection board.
Proof.
  assert (Hr : reachable board) by (unfold board; repeat constructor).
  assert (Hc : current_status board (lit "0.5") = Some Active)
    by (vm_compute; reflexivity).
  split; [exact Hr|]. split; [exact Hc|].
  exact (X8_move_there_and_back board (lit "0.5") Finished Active Hr Hc).
Defined.

(** X9.  [moveProject] is idempotent on the whole store: a second call
    with the same arguments changes nothing and calls no listener. *)
Theorem X9_moveProject_idempotent :
  ∀ (st : State) (i : jsstring) (s : ProjectStatus),
    reachable st →
    moveProject i s (moveProject i s st) = moveProject i s st.
Proof.
  intros st i s Hr. apply reachable_wf in Hr as Hwf.
  destruct (current_status st i) as [s0|] eqn:E.
  - apply moveProject_current_same.
    rewrite current_status_first, moveProject_collection by done.
    eapply first_status_move_first. by rewrite <- current_status_first.
  - assert (Hsame : moveProject i s st = st).
    { unfold current_status in E.
      destruct (find _ _ _) eqn:Hf; [done|]. by apply moveProject_absent. }
    by rewrite !Hsame.
Qed.

Lemma X9_witness :
  reachable board ∧
  moveProject (lit "0.5") Finished
    (moveProject (lit "0.5") Finished board) =
  moveProject (lit "0.5") Finished board.
Proof.
  assert (Hr : reachable board) by (unfold board; repeat constructor).
  split; [exact Hr|].
  exact (X9_moveProject_idempotent board (lit "0.5") Finished Hr).
Defined.



(** X11.  The store keeps its own array for good and never writes to an
    array it has handed to a listener: whatever is called afterwards, an
    array other than [this.projects] holds what it held. *)
Theorem X11_handed_out_arrays_are_never_written :
  ∀ (st st' : State) (a : loc) (l : list loc),
    reachable st → evolves st st' →
    arrays st !! a = Some l → a ≠ projects st →
    projects st' = projects st ∧ arrays st' !! a = Some l.
Proof.
  intros st st' a l Hr Hev Ha Hne. apply reachable_wf in Hr.
  destruct (evolves_grows st st' Hr Hev) as (_ & _ & _ & Hp & Harr).
  split; [done|]. by apply Harr.
Qed.

(** The store after the first project of [board] was added: the arrays
    at 2 and 3 are those handed to the two listeners. *)
Definition board1 : State :=
  addProject (lit "0.5") (lit "My Project") (lit "Build the thing")
    3%float
    (addListener reverser (addListener pusher init)).

Lemma X11_witness :
  reachable board1 ∧ evolves board1 board ∧
  arrays board1 !! 2%positive = Some [1; 1]%positive ∧
  2%positive ≠ projects board1 ∧
  arrays board !! 2%positive = Some [1; 1]%positive.
Proof.
  assert (Hr : reachable board1) by (unfold board1; repeat constructor).
  assert (Hev : evolves board1 board)
    by (unfold board; fold board1; repeat constructor).
  assert (Ha : arrays board1 !! 2%positive = Some [1; 1]%positive)
    by (vm_compute; reflexivity).
  assert (Hne : 2%positive ≠ projects board1) by (vm_compute; discriminate).
  split; [exact Hr|]. split; [exact Hev|]. split; [exact Ha|].
  split; [exact Hne|].
  exact (proj2 (X11_handed_out_arrays_are_never_written
                  board1 board 2%positive _ Hr Hev Ha Hne)).
Defined.

(** X12.  The copy handed to a listener is shallow.  An array that holds
    the address of a project, whoever owns the array, shows the new
    status after [moveProject] has changed that project: the array is
    the same, the object it refers to is the one the store assigned. *)
Theorem X12_snapshots_share_the_projects :
  ∀ (st : State) (i : jsstring) (s : ProjectStatus) (a o : loc)
    (p : Project) (l : list loc),
    reachable st →
    find (objects st) i (content st) = Some (o, p) → status p ≠ s →
    arrays st !! a = Some l → a ≠ projects st → o ∈ l →
    arrays (moveProject i s st) !! a = Some l ∧
    set_status s p ∈ deref (objects (moveProject i s st)) l.
Proof.
  intros st i s a o p l Hr Hf Hs Ha Hne Hin.
  apply reachable_wf in Hr as Hwf.
  destruct (grows_moveProject i s st Hwf) as (_ & _ & _ & _ & Harr).
  split; [by apply Harr|].
  rewrite (moveProject_assigned i s st o p Hf Hs).
  destruct (updateListeners_spec _
              (proj1 (wf_assigned o (set_status s p) st Hwf)))
    as (Ho & _).
  rewrite Ho. eapply elem_of_deref; [exact Hin|].
  apply lookup_insert_eq.
Qed.


Lemma X12_witness :
  reachable board ∧
  arrays (moveProject (lit "0.5") Finished board) !! 2%positive =
    Some [1; 1]%positive ∧
  {| id := lit "0.5"; title := lit "My Project";
     description := lit "Build the thing"; people := 3%float;
     status := Finished |} ∈
  deref (objects (moveProject (lit "0.5") Finished board))
    [1; 1]%positive.
Proof.
  assert (Hr : reachable board) by (unfold board; repeat constructor).
  assert (Hf : find (objects board) (lit "0.5") (content board) =
               Some (1%positive,
                     {| id := lit "0.5"; title := lit "My Project";
                        description := lit "Build the thing";
                        people := 3%float; status := Active |}))
    by (vm_compute; reflexivity).
  assert (Hs : Active ≠ Finished) by discriminate.
  assert (Ha : arrays board !! 2%positive = Some [1; 1]%positive)
    by (vm_compute; reflexivity).
  assert (Hne : 2%positive ≠ projects board) by (vm_compute; discriminate).
  assert (Hin : 1%positive ∈ [1; 1]%positive) by left.
  split; [exact Hr|].
  exact (X12_snapshots_share_the_projects board (lit "0.5") Finished
           2%positive 1%positive _ _ Hr Hf Hs Ha Hne Hin).
Defined.

End StoreLaws.

(** ** The widgets and the drag-and-drop handlers *)

Module BoardLaws.
Import JS Validator Store Form Board.
Import ValidatorFacts StoreFacts FormFacts FormLaws StoreLaws.

(** The lists show the store: each list holds the projects of the
    collection that have its status, in the order of the collection, and
    one card per project. *)
Definition in_sync (nts : number → jsstring) (pg : Page) : Prop :=
  let ps := collection (prjState (world pg)) in
  assignedProjects (activeProj pg) = filter (stays active) ps ∧
  assignedProjects (finishedProj pg) = filter (stays finished) ps ∧
  ul (activeProj pg) = new_ProjectItem nts <$> filter (stays active) ps ∧
  ul (finishedProj pg) =
    new_ProjectItem nts <$> filter (stays finished) ps.

(** What holds of every page: the store is a reachable one with the two
    callbacks of the lists as its listeners, and the lists are in sync. *)
Definition page_ok (nts : number → jsstring) (pg : Page) : Prop :=
  reachable (prjState (world pg)) ∧
  listeners (prjState (world pg)) =
    [list_listener active; list_listener finished] ∧
  type (activeProj pg) = active ∧
  type (finishedProj pg) = finished ∧
  in_sync nts pg.

(** A store operation that either does nothing or notifies every
    listener once, in order, with the collection it leaves. *)
Definition quiet_or_round (st st' : State) : Prop :=
  reachable st' ∧ listeners st' = listeners st ∧
  (st' = st ∨
   ∃ new, calls st' = calls st ++ new ∧
          callee <$> new = listeners st ∧
          Forall (λ c, seen c = collection st') new).

Section with_runtime.

Variable Number_toString : number → jsstring.
Variable ToNumber : jsstring → number.

Local Abbreviation new_ProjectItem := (Board.new_ProjectItem Number_toString).
Local Abbreviation on_projects := (Board.on_projects Number_toString).
Local Abbreviation deliver := (Board.deliver Number_toString).
Local Abbreviation settle := (Board.settle Number_toString).
Local Abbreviation in_sync := (in_sync Number_toString).
Local Abbreviation page_ok := (page_ok Number_toString).

Lemma renderProjects_ul pl :
  ul (renderProjects Number_toString pl) =
  new_ProjectItem <$> assignedProjects pl.
Proof.
  unfold renderProjects; simpl.
  assert (H : ∀ l acc,
    foldl (λ children prjItem, children ++ [new_ProjectItem prjItem])
      acc l = acc ++ (new_ProjectItem <$> l)).
  { induction l as [|x l IH]; intros acc; simpl.
    - by rewrite app_nil_r.
    - rewrite IH. by rewrite <- app_assoc. }
  apply H.
Qed.

Lemma updateListeners_round st :
  wf st →
  ∃ new, calls (updateListeners st) = calls st ++ new ∧
         callee <$> new = listeners st ∧
         Forall (λ c, seen c = collection (updateListeners st)) new.
Proof.
  intros Hwf.
  destruct (updateListeners_spec st (proj1 Hwf))
    as (_ & _ & _ & _ & _ & new & Hc & Hn & Hall).
  exists new. split; [done|]. split; [done|].
  eapply Forall_impl; [exact Hall|]. intros c (Hs & _).
  by rewrite updateListeners_collection by apply Hwf.
Qed.

Lemma addProject_round rnd t d n st :
  reachable st → quiet_or_round st (addProject rnd t d n st).
Proof.
  intros Hr. split; [by constructor|]. apply reachable_wf in Hr as Hwf.
  rewrite addProject_pushed. set (st1 := pushed _ st).
  assert (Hwf1 : wf st1) by by apply wf_pushed.
  split; [by apply (updateListeners_spec st1), Hwf1|].
  right. by apply (updateListeners_round st1).
Qed.

Lemma moveProject_round i s st :
  reachable st → quiet_or_round st (moveProject i s st).
Proof.
  intros Hr. split; [by constructor|]. apply reachable_wf in Hr as Hwf.
  destruct (find (objects st) i (content st)) as [[o p]|] eqn:Hf;
    [|rewrite moveProject_absent by done; split; [done|by left]].
  destruct (decide (status p = s)) as [Hs|Hs];
    [rewrite (moveProject_same i s st o p Hf Hs); split; [done|by left]|].
  rewrite (moveProject_assigned i s st o p Hf Hs).
  set (st1 := assigned o (set_status s p) st).
  assert (Hwf1 : wf st1) by by apply wf_assigned.
  split; [by apply (updateListeners_spec st1), Hwf1|].
  right. by apply (updateListeners_round st1).
Qed.

Lemma deliver_world pg c : world (deliver pg c) = world pg.
Proof. unfold Board.deliver. by repeat case_decide. Qed.

Lemma settle_world n pg : world (settle n pg) = world pg.
Proof.
  unfold Board.settle. generalize (drop n (calls (prjState (world pg)))).
  intros l. revert pg. induction l as [|c l IH]; intros pg; [done|].
  simpl. by rewrite IH, deliver_world.
Qed.

Lemma on_projects_type ps pl : type (on_projects ps pl) = type pl.
Proof. reflexivity. Qed.

Lemma on_projects_assigned ps pl :
  assignedProjects (on_projects ps pl) = filter (stays (type pl)) ps.
Proof. reflexivity. Qed.

Lemma on_projects_ul ps pl :
  ul (on_projects ps pl) =
  new_ProjectItem <$> filter (stays (type pl)) ps.
Proof. unfold Board.on_projects. by rewrite renderProjects_ul. Qed.

Lemma deliver_active pg c :
  callee c = list_listener active →
  deliver pg c =
  {| world := world pg;
     activeProj := on_projects (seen c) (activeProj pg);
     finishedProj := finishedProj pg |}.
Proof. intros H. unfold Board.deliver. by rewrite H. Qed.

Lemma deliver_finished pg c :
  callee c = list_listener finished →
  deliver pg c =
  {| world := world pg;
     activeProj := activeProj pg;
     finishedProj := on_projects (seen c) (finishedProj pg) |}.
Proof. intros H. unfold Board.deliver. by rewrite H. Qed.

(** After a store operation on a page that was in order, delivering the
    new calls puts the page in order again. *)
Lemma settle_ok pg w' :
  page_ok pg →
  quiet_or_round (prjState (world pg)) (prjState w') →
  page_ok (settle (length (calls (prjState (world pg))))
             {| world := w'; activeProj := activeProj pg;
                finishedProj := finishedProj pg |}).
Proof.
  intros (Hr & Hl & Ha & Hf & Hsync) (Hr' & Hl' & Hcase).
  unfold Board.settle. cbn [world].
  destruct Hcase as [Heq|(new & Hc & Hn & Hall)].
  - rewrite Heq, drop_all. cbn [foldl].
    unfold BoardLaws.page_ok, BoardLaws.in_sync.
    cbn [world activeProj finishedProj]. rewrite Heq.
    by repeat split; try apply Hsync.
  - rewrite Hc, drop_app_length. rewrite Hl in Hn.
    destruct new as [|c1 [|c2 [|c3 new]]]; try discriminate Hn.
    injection Hn as Hc1 Hc2.
    apply Forall_cons in Hall as [Hs1 Hall].
    apply Forall_cons in Hall as [Hs2 _].
    cbn [foldl].
    rewrite (deliver_active _ c1 Hc1), (deliver_finished _ c2 Hc2).
    unfold BoardLaws.page_ok, BoardLaws.in_sync.
    cbn [world activeProj finishedProj].
    rewrite !on_projects_type, !on_projects_assigned, !on_projects_ul.
    rewrite Ha, Hf, Hs1, Hs2.
    repeat split; try done. congruence.
Qed.

Lemma startup_ok : page_ok (startup).
Proof.
  unfold BoardLaws.page_ok, BoardLaws.in_sync, startup.
  cbn [world activeProj finishedProj prjState].
  split; [repeat constructor|]. split; [reflexivity|].
  assert (E : collection (addListener (list_listener finished)
                (addListener (list_listener active) init)) = [])
    by (vm_compute; reflexivity).
  rewrite E. by repeat split.
Qed.

Lemma on_list_ok t f pg :
  (∀ pl, type (f pl) = type pl ∧
         assignedProjects (f pl) = assignedProjects pl ∧
         ul (f pl) = ul pl) →
  page_ok pg → page_ok (on_list t f pg).
Proof.
  intros Hf (Hr & Hl & Ha & Hfi & H1 & H2 & H3 & H4).
  destruct (Hf (activeProj pg)) as (Ea1 & Ea2 & Ea3).
  destruct (Hf (finishedProj pg)) as (Ef1 & Ef2 & Ef3).
  unfold BoardLaws.page_ok, BoardLaws.in_sync.
  destruct t; cbn [on_list world activeProj finishedProj];
    repeat split; congruence.
Qed.

Lemma submit_round rnd (w : World) :
  reachable (prjState w) →
  quiet_or_round (prjState w)
    (prjState (handleSubmit Number_toString ToNumber rnd w)).
Proof.
  intros Hr. unfold handleSubmit.
  destruct (getInputValues_cases Number_toString ToNumber rnd w)
    as [(_ & H)|[(_ & _ & H)|[(_ & _ & _ & H)|(_ & _ & _ & H)]]];
    try (destruct H as (_ & -> & _); by repeat split; try left).
  rewrite H. cbn [clearInput prjState]. by apply addProject_round.
Qed.

Lemma page_reachable_ok pg :
  page_reachable Number_toString ToNumber pg → page_ok pg.
Proof.
  induction 1 as [|f pg H IH|rnd pg H IH|t event pg H IH|t pg H IH
                  |t event pg pg' H IH Hdrop].
  - apply startup_ok.
  - exact IH.
  - apply settle_ok; [exact IH|]. apply submit_round, IH.
  - apply on_list_ok; [|exact IH]. intros pl.
    unfold handleDragOver. destruct (dataTransfer event); [|done].
    by case_decide.
  - by apply on_list_ok.
  - unfold handleDragDrop in Hdrop.
    destruct (dataTransfer event); [|done]. injection Hdrop as <-.
    apply (settle_ok pg
             {| form := form (world pg); alerts := alerts (world pg);
                prjState := moveProject _ _ (prjState (world pg)) |});
      [exact IH|].
    apply moveProject_round, IH.
Qed.

(** *** The transfer *)

Lemma lookup_format_setData format d l :
  lookup_format format (filter (λ e, e.1 ≠ format) l ++ [(format, d)]) =
  Some d.
Proof.
  induction l as [|e l IH]; simpl.
  - by rewrite decide_True.
  - rewrite filter_cons. case_decide as He; [|done].
    simpl. by rewrite decide_False.
Qed.

Lemma getData_setData format d dt :
  getData format (setData format d dt) = d.
Proof. unfold getData, setData; simpl. by rewrite lookup_format_setData. Qed.

(** *** Lists of projects *)

Lemma ids_inj (l : list Project) x y :
  NoDup (id <$> l) → x ∈ l → y ∈ l → id x = id y → x = y.
Proof.
  induction l as [|z l IH]; [by intros _ ?%elem_of_nil|].
  rewrite fmap_cons, NoDup_cons, !elem_of_cons.
  intros [Hz Hnd] [->|Hx] [->|Hy] Hid; auto.
  - destruct Hz. rewrite Hid. by apply list_elem_of_fmap_2.
  - destruct Hz. rewrite <- Hid. by apply list_elem_of_fmap_2.
Qed.

Lemma filter_without_id (P : Project → Prop) `{∀ x, Decision (P x)}
    (i : jsstring) (l : list Project) :
  i ∉ id <$> l →
  filter (λ q, id q ≠ i) (filter P l) = filter P l.
Proof.
  induction l as [|q l IH]; [done|].
  rewrite fmap_cons, not_elem_of_cons. intros [Hq Hl].
  rewrite (filter_cons P). case_decide; [|by apply IH].
  rewrite filter_cons_True by done. by rewrite IH.
Qed.

(** Moving a project whose id is unique: it leaves the projects of
    status [s0] and joins those of status [s]. *)
Lemma move_first_unique i s s0 (prj : Project) (l : list Project) :
  NoDup (id <$> l) → prj ∈ l → id prj = i → status prj = s0 → s ≠ s0 →
  filter (λ q, status q = s0) (move_first i s l) =
    filter (λ q, id q ≠ i) (filter (λ q, status q = s0) l) ∧
  set_status s prj ∈ move_first i s l.
Proof.
  intros Hnd Hin Hid Hst Hne. induction l as [|q l IH];
    [by apply elem_of_nil in Hin|].
  rewrite fmap_cons, NoDup_cons in Hnd. destruct Hnd as [Hq Hnd].
  simpl. destruct (decide (id q = i)) as [Hqi|Hqi].
  - assert (q = prj) as ->.
    { apply elem_of_cons in Hin as [->|Hin]; [done|].
      destruct Hq. rewrite Hqi, <- Hid. by apply list_elem_of_fmap_2. }
    split; [|left].
    rewrite filter_cons_False by (simpl; congruence).
    rewrite (filter_cons (λ q, status q = s0) prj).
    rewrite decide_True by done.
    rewrite filter_cons_False by (intros Hx; by apply Hx).
    symmetry. apply filter_without_id. congruence.
  - apply elem_of_cons in Hin as [->|Hin]; [done|].
    destruct (IH Hnd Hin) as [IH1 IH2]. split; [|by right].
    rewrite !(filter_cons (λ q, status q = s0) q).
    case_decide; [|done].
    rewrite filter_cons_True by done. by rewrite IH1.
Qed.

Lemma stays_target t (prj : Project) :
  stays t prj ↔ status prj = target t.
Proof. by destruct t. Qed.

Lemma filter_stays t (l : list Project) :
  filter (stays t) l = filter (λ q, status q = target t) l.
Proof. apply list_filter_iff. intros q. apply stays_target. Qed.

Lemma in_sync_the_list t pg :
  in_sync pg →
  assignedProjects (the_list t pg) =
    filter (stays t) (collection (prjState (world pg))) ∧
  ul (the_list t pg) =
    new_ProjectItem <$>
      filter (stays t) (collection (prjState (world pg))).
Proof. intros (H1 & H2 & H3 & H4). by destruct t. Qed.

Lemma handleDragDrop_Some t dt b pg :
  ∃ pg',
    handleDragDrop Number_toString t
      {| dataTransfer := Some dt; defaultPrevented := b |} pg = Some pg' ∧
    world pg' =
      {| form := form (world pg); alerts := alerts (world pg);
         prjState := moveProject (getData (lit "text/plain") dt)
                       (target t) (prjState (world pg)) |}.
Proof.
  eexists. split; [reflexivity|]. by rewrite settle_world.
Qed.

Lemma drag_drop (item : ProjectItem) dt b t pg :
  ∃ ev pg',
    handleDragStart item
      {| dataTransfer := Some dt; defaultPrevented := b |} = Some ev ∧
    handleDragDrop Number_toString t ev pg = Some pg' ∧
    world pg' =
      {| form := form (world pg); alerts := alerts (world pg);
         prjState := moveProject (id (project item)) (target t)
                       (prjState (world pg)) |}.
Proof.
  destruct (handleDragDrop_Some t
              {| data := data (setData (lit "text/plain")
                                 (id (project item)) dt);
                 effectAllowed := lit "move" |} b pg) as (pg' & H1 & H2).
  eexists. exists pg'. split; [reflexivity|]. split; [exact H1|].
  rewrite H2. f_equal. f_equal.
  apply (getData_setData (lit "text/plain") (id (project item)) dt).
Qed.

End with_runtime.

(** A page with one project, entered through the form. *)
Definition demo : Page :=
  submit Runtime.Number_toString Runtime.ToNumber (lit "0.5")
    (fill good_form startup).

Definition demo_project : Project :=
  {| id := lit "0.5"; title := lit "My Project";
     description := lit "Build the thing"; people := 3%float;
     status := Active |}.

Lemma demo_reachable :
  page_reachable Runtime.Number_toString Runtime.ToNumber demo.
Proof. unfold demo. repeat constructor. Qed.

(** X13.  On every page the user can bring about, the two lists show
    the store: the active list holds the [Active] projects of the
    collection and the finished list the [Finished] ones, each in the
    order of the collection and with one card per project, and every
    project of the store is in exactly one of the two lists. *)
Theorem X13_lists_show_the_store :
  ∀ (Number_toString : number → jsstring) (ToNumber : jsstring → number)
    (pg : Page),
    page_reachable Number_toString ToNumber pg →
    in_sync Number_toString pg ∧
    assignedProjects (activeProj pg) ++ assignedProjects (finishedProj pg)
      ≡ₚ collection (prjState (world pg)).
Proof.
  intros nts tn pg Hpg.
  destruct (page_reachable_ok nts tn pg Hpg) as (_ & _ & _ & _ & Hsync).
  split; [done|]. destruct Hsync as (-> & -> & _).
  assert (E : filter (stays finished) (collection (prjState (world pg))) =
              filter (λ q, ¬ stays active q)
                (collection (prjState (world pg)))).
  { apply list_filter_iff. intros q. simpl.
    destruct (status q); split; congruence. }
  rewrite E. apply filter_app_complement.
Qed.

Lemma X13_witness :
  page_reachable Runtime.Number_toString Runtime.ToNumber demo ∧
  in_sync Runtime.Number_toString demo.
Proof.
  split; [exact demo_reachable|].
  exact (proj1 (X13_lists_show_the_store Runtime.Number_toString
                  Runtime.ToNumber demo demo_reachable)).
Defined.

(** X14.  What [handleDragStart] puts into the transfer is what
    [handleDragDrop] reads: whatever the transfer held before, dropping
    the card of a project on a list calls [moveProject] with the id of
    that project and the status of that list, and touches neither the
    form nor the alerts. *)
Theorem X14_drop_moves_the_dragged_project :
  ∀ (Number_toString : number → jsstring) (item : ProjectItem)
    (dt : DataTransfer) (b : bool) (t : ListType) (pg : Page),
    ∃ ev pg',
      handleDragStart item
        {| dataTransfer := Some dt; defaultPrevented := b |} = Some ev ∧
      handleDragDrop Number_toString t ev pg = Some pg' ∧
      world pg' =
        {| form := form (world pg); alerts := alerts (world pg);
           prjState := moveProject (id (project item)) (target t)
                         (prjState (world pg)) |}.
Proof.
  intros nts item dt b t pg. apply drag_drop.
Qed.

(** X15.  A list accepts the drag of a card exactly when the transfer
    held nothing of another format before the drag started: then
    [handleDragOver] prevents the default and marks the list droppable
    (and [handleDragLeave] unmarks it); otherwise the first format is not
    ['text/plain'] and [handleDragOver] does nothing. *)
Theorem X15_dragover_accepts_a_card :
  ∀ (item : ProjectItem) (dt : DataTransfer) (b : bool)
    (pl : ProjectList),
    ∃ ev,
      handleDragStart item
        {| dataTransfer := Some dt; defaultPrevented := b |} = Some ev ∧
      (Forall (λ e, e.1 = lit "text/plain") (data dt) →
       defaultPrevented (handleDragOver ev pl).1 = true ∧
       droppable (handleDragOver ev pl).2 = true ∧
       droppable (handleDragLeave (handleDragOver ev pl).2) = false) ∧
      (¬ Forall (λ e, e.1 = lit "text/plain") (data dt) →
       handleDragOver ev pl = (ev, pl)).
Proof.
  intros item dt b pl. eexists. split; [reflexivity|].
  unfold handleDragOver, types, setData. cbn [dataTransfer data].
  assert (Hcase :
    Forall (λ e, e.1 = lit "text/plain") (data dt) ↔
    (filter (λ e, e.1 ≠ lit "text/plain") (data dt) ++
       [(lit "text/plain", id (project item))]).*1 !! 0 =
    Some (lit "text/plain")).
  { induction (data dt) as [|e l IH]; [done|].
    rewrite Forall_cons, filter_cons. case_decide as He; simpl.
    - split; [by intros [? _]|]. intros [= ?]. done.
    - rewrite IH. split; [by intros [_ ?]|]. intros ?. split; [|done].
      by destruct (decide (e.1 = lit "text/plain")). }
  split.
  - intros Hall. apply Hcase in Hall. by rewrite decide_True.
  - intros Hnot. rewrite decide_False; [done|]. by rewrite <- Hcase.
Qed.

Lemma X15_witness :
  Forall (λ e : jsstring * jsstring, e.1 = lit "text/plain") [] ∧
  droppable
    (handleDragOver
       {| dataTransfer :=
            Some {| data := [(lit "text/plain", lit "0.5")];
                    effectAllowed := lit "move" |};
          defaultPrevented := false |}
       (new_ProjectList finished)).2 = true.
Proof.
  assert (H : Forall (λ e : jsstring * jsstring, e.1 = lit "text/plain")
                []) by constructor.
  split; [exact H|].
  destruct (X15_dragover_accepts_a_card
              (new_ProjectItem Runtime.Number_toString demo_project)
              {| data := []; effectAllowed := lit "uninitialized" |}
              false (new_ProjectList finished))
    as (ev & Hev & Hyes & _).
  injection Hev as <-.
  exact (proj1 (proj2 (Hyes H))).
Defined.

(** X16.  Dragging a card to the other list moves the project there.
    When the ids in the store are pairwise distinct and a project is in
    the list of type [t], dropping its card on the list of the other
    type [t'] leaves the first list with the same projects except that
    one, and the project, with the status of [t'], is in the second
    list. *)
Theorem X16_drag_to_the_other_list :
  ∀ (Number_toString : number → jsstring) (ToNumber : jsstring → number)
    (pg : Page) (prj : Project) (t t' : ListType)
    (dt : DataTransfer) (b : bool),
    page_reachable Number_toString ToNumber pg →
    NoDup (project_ids (prjState (world pg))) →
    prj ∈ assignedProjects (the_list t pg) → t' ≠ t →
    ∃ ev pg',
      handleDragStart (new_ProjectItem Number_toString prj)
        {| dataTransfer := Some dt; defaultPrevented := b |} = Some ev ∧
      handleDragDrop Number_toString t' ev pg = Some pg' ∧
      assignedProjects (the_list t pg') =
        filter (λ q, id q ≠ id prj) (assignedProjects (the_list t pg)) ∧
      set_status (target t') prj ∈ assignedProjects (the_list t' pg').
Proof.
  intros nts tn pg prj t t' dt b Hpg Hnd Hin Hne.
  destruct (drag_drop nts (new_ProjectItem nts prj) dt b t' pg)
    as (ev & pg' & Hstart & Hdrop & Hworld).
  exists ev, pg'. split; [exact Hstart|]. split; [exact Hdrop|].
  assert (Hpg' : page_reachable nts tn pg') by by eapply page_drop.
  destruct (page_reachable_ok nts tn pg Hpg) as (Hr & _ & _ & _ & Hsync).
  destruct (page_reachable_ok nts tn pg' Hpg')
    as (_ & _ & _ & _ & Hsync').
  rewrite (proj1 (in_sync_the_list nts t pg Hsync)) in Hin |- *.
  rewrite (proj1 (in_sync_the_list nts t pg' Hsync')).
  rewrite (proj1 (in_sync_the_list nts t' pg' Hsync')).
  rewrite Hworld. cbn [prjState].
  rewrite moveProject_collection by by apply reachable_wf.
  apply list_elem_of_filter in Hin as [Hst Hin].
  apply stays_target in Hst.
  destruct (move_first_unique (id prj) (target t') (target t) prj
              (collection (prjState (world pg))) Hnd Hin eq_refl Hst)
    as [H1 H2]; [by destruct t, t'|].
  rewrite !filter_stays. split; [exact H1|].
  apply list_elem_of_filter. by split.
Qed.

Lemma X16_witness :
  page_reachable Runtime.Number_toString Runtime.ToNumber demo ∧
  NoDup (project_ids (prjState (world demo))) ∧
  demo_project ∈ assignedProjects (the_list active demo) ∧
  finished ≠ active ∧
  ∃ ev pg',
    handleDragStart
      (new_ProjectItem Runtime.Number_toString demo_project)
      {| dataTransfer :=
           Some {| data := []; effectAllowed := lit "uninitialized" |};
         defaultPrevented := false |} = Some ev ∧
    handleDragDrop Runtime.Number_toString finished ev demo = Some pg' ∧
    assignedProjects (the_list active pg') =
      filter (λ q, id q ≠ id demo_project)
        (assignedProjects (the_list active demo)) ∧
    set_status (target finished) demo_project ∈
      assignedProjects (the_list finished pg').
Proof.
  assert (Hnd : NoDup (project_ids (prjState (world demo)))).
  { assert (E : project_ids (prjState (world demo)) = [lit "0.5"])
      by (vm_compute; reflexivity).
    rewrite E. apply NoDup_singleton. }
  assert (Hin : demo_project ∈ assignedProjects (the_list active demo)).
  { assert (E : assignedProjects (the_list active demo) = [demo_project])
      by (vm_compute; reflexivity).
    rewrite E. left. }
  assert (Hne : finished ≠ active) by discriminate.
  split; [exact demo_reachable|]. split; [exact Hnd|].
  split; [exact Hin|]. split; [exact Hne|].
  exact (X16_drag_to_the_other_list Runtime.Number_toString
           Runtime.ToNumber demo demo_project active finished
           {| data := []; effectAllowed := lit "uninitialized" |} false
           demo_reachable Hnd Hin Hne).
Defined.

(** X17.  A submission that shows no alert puts one card at the end of
    the active list, with the entered title and description as its
    [h2] and [p]; the finished list keeps its cards and the three fields
    are emptied. *)
Theorem X17_valid_submission_adds_a_card :
  ∀ (Number_toString : number → jsstring) (ToNumber : jsstring → number)
    (rnd : jsstring) (pg : Page),
    page_reachable Number_toString ToNumber pg →
    alerts (world (submit Number_toString ToNumber rnd pg)) =
      alerts (world pg) →
    ∃ item,
      ul (activeProj (submit Number_toString ToNumber rnd pg)) =
        ul (activeProj pg) ++ [item] ∧
      el_id item = (if decide (rnd = []) then None else Some rnd) ∧
      h2 item = titlEl (form (world pg)) ∧
      para item = descriptionEl (form (world pg)) ∧
      status (project item) = Active ∧
      ul (finishedProj (submit Number_toString ToNumber rnd pg)) =
        ul (finishedProj pg) ∧
      form (world (submit Number_toString ToNumber rnd pg)) =
        {| titlEl := []; descriptionEl := []; peopleEl := [] |}.
Proof.
  intros nts tn rnd pg Hpg Hquiet.
  assert (Hpg' : page_reachable nts tn (submit nts tn rnd pg))
    by by constructor.
  destruct (page_reachable_ok nts tn pg Hpg)
    as (Hr & _ & _ & _ & (_ & _ & Ha & Hf)).
  destruct (page_reachable_ok nts tn _ Hpg')
    as (_ & _ & _ & _ & (_ & _ & Ha' & Hf')).
  rewrite Ha', Hf', Ha, Hf. clear Ha Hf Ha' Hf'.
  unfold submit in *. rewrite settle_world in *. cbn [world] in *.
  unfold handleSubmit in *.
  destruct (getInputValues_cases nts tn rnd (world pg))
    as [(_ & H)|[(_ & _ & H)|[(_ & _ & _ & H)|(_ & _ & _ & H)]]];
    try (exfalso; destruct H as (H & _); rewrite Hquiet in H;
         apply (f_equal length) in H; rewrite length_app in H;
         simpl in H; lia).
  rewrite H. cbn [clearInput prjState form].
  rewrite addProject_collection by by apply reachable_wf.
  rewrite !filter_app.
  rewrite (filter_cons_True (stays active)) by reflexivity.
  rewrite (filter_cons_False (stays finished)) by discriminate.
  rewrite !filter_nil, app_nil_r, fmap_app.
  eexists. split; [reflexivity|]. repeat split.
  cbn [new_ProjectItem el_id id truthy]. destruct rnd; by simpl.
Qed.

Lemma X17_witness :
  page_reachable Runtime.Number_toString Runtime.ToNumber
    (fill good_form startup) ∧
  alerts (world demo) = alerts (world (fill good_form startup)) ∧
  ∃ item, ul (activeProj demo) = ul (activeProj (fill good_form startup)) ++ [item] ∧
          h2 item = lit "My Project".
Proof.
  assert (Hpg : page_reachable Runtime.Number_toString Runtime.ToNumber
                  (fill good_form startup)) by repeat constructor.
  assert (Hq : alerts (world demo) =
               alerts (world (fill good_form startup)))
    by (vm_compute; reflexivity).
  split; [exact Hpg|]. split; [exact Hq|].
  destruct (X17_valid_submission_adds_a_card Runtime.Number_toString
              Runtime.ToNumber (lit "0.5") (fill good_form startup) Hpg Hq)
    as (item & H1 & _ & H2 & _).
  exists item. split; [exact H1|exact H2].
Defined.

End BoardLaws.
